(** * JiraCheckTool: the compliance checks of [src/jira_check.py]

    A shallow embedding of [JiraCheckTool] (the rule catalogue
    [check_story], [check_bug], [check_review], the shared
    [__common_problem], the dispatcher [check_issue] and the per-project
    loop [get_project_problem]) together with the two calls of
    [datetime.strptime] and the call of [datetime.now] they rely on.

    Modelling decisions.
    - A Python [str] is a [string] (its UTF-8 bytes).  Equality and
      substring search coincide with Python's on every text; [str.lower]
      and the digit class of the [re] module are modelled on the ASCII
      range, which is where the markers, the issue-type names and the date
      formats of the tracker live.
    - An exception is a value [Raise e]; nothing in the checks catches
      one, so it propagates to the caller.
    - [datetime.now()] is an effect: it reads the next value of the wall
      clock held in the [World]. *)

From Stdlib Require Import String Ascii ZArith QArith List Lia Bool.
From stdpp Require Import base option gmap strings list fin_maps.

Open Scope string_scope.
Open Scope Z_scope.

(* ================================================================== *)
(** ** Exceptions and results *)

Inductive exn : Type :=
| ValueError       (* datetime.strptime on a text that does not parse *)
| AttributeError.  (* attribute access on None *)

Inductive result (A : Type) : Type :=
| Ok (a : A)
| Raise (e : exn).
Arguments Ok {A} a.
Arguments Raise {A} e.

Definition result_bind {A B} (r : result A) (f : A -> result B) : result B :=
  match r with
  | Ok a => f a
  | Raise e => Raise e
  end.

(* ================================================================== *)
(** ** [datetime.date] and [datetime.datetime] *)

Record date : Type := mk_date { year : Z; month : Z; day : Z }.

Record datetime : Type := mk_datetime {
  dt_date : date;          (* datetime.date() *)
  hour : Z;
  minute : Z;
  second : Z;
  microsecond : Z }.

Definition is_leap (y : Z) : bool :=
  ((y mod 4 =? 0) && negb (y mod 100 =? 0)) || (y mod 400 =? 0).

Definition days_in_month (y m : Z) : Z :=
  if m =? 2 then (if is_leap y then 29 else 28)
  else if (m =? 4) || (m =? 6) || (m =? 9) || (m =? 11) then 30
  else 31.

(** The range checks of the [date] and [datetime] constructors. *)
Definition check_date_fields (y m d : Z) : bool :=
  (1 <=? y) && (y <=? 9999) && (1 <=? m) && (m <=? 12) &&
  (1 <=? d) && (d <=? days_in_month y m).

Definition check_time_fields (h mi s us : Z) : bool :=
  (0 <=? h) && (h <=? 23) && (0 <=? mi) && (mi <=? 59) &&
  (0 <=? s) && (s <=? 59) && (0 <=? us) && (us <=? 999999).

(** [a > b] on dates: comparison of [(year, month, day)]. *)
Definition date_gt (a b : date) : bool :=
  match year a ?= year b with
  | Gt => true
  | Lt => false
  | Eq => match month a ?= month b with
          | Gt => true
          | Lt => false
          | Eq => day b <? day a
          end
  end.

Definition date_eqb (a b : date) : bool :=
  (year a =? year b) && (month a =? month b) && (day a =? day b).

Definition time_of_day (t : datetime) : Z :=
  ((hour t * 60 + minute t) * 60 + second t) * 1000000 + microsecond t.

(** [a > b] on naive datetimes. *)
Definition datetime_gt (a b : datetime) : bool :=
  date_gt (dt_date a) (dt_date b) ||
  (date_eqb (dt_date a) (dt_date b) && (time_of_day b <? time_of_day a)).

(* ================================================================== *)
(** ** [datetime.strptime]

    [_strptime] turns the format into a regular expression, matches it
    at the start of the text with [re.IGNORECASE], raises [ValueError]
    when there is no match or when the match leaves text unconverted, and
    then builds the [datetime], whose constructor raises [ValueError] on a
    field out of range.  A regular expression is embedded as a
    backtracking parser: the list of its matches, in the order in which
    the [re] module tries them. *)

Definition parser (A : Type) : Type := list ascii -> list (A * list ascii).

Definition p_ret {A} (a : A) : parser A := fun s => [(a, s)].

Definition p_bind {A B} (p : parser A) (f : A -> parser B) : parser B :=
  fun s => flat_map (fun ar => f (fst ar) (snd ar)) (p s).

Definition p_alt {A} (p q : parser A) : parser A := fun s => (p s ++ q s)%list.

Definition p_map {A B} (f : A -> B) (p : parser A) : parser B :=
  p_bind p (fun a => p_ret (f a)).

Notation "x <~ p ;; q" := (p_bind p (fun x => q))
  (at level 100, p at next level, right associativity).

Definition p_sat (f : ascii -> bool) : parser ascii :=
  fun s => match s with
           | c :: r => if f c then [(c, r)] else []
           | [] => []
           end.

Definition p_char (c : ascii) : parser unit :=
  p_map (fun _ => tt) (p_sat (Ascii.eqb c)).

(** [[lo-hi]] on decimal digits, giving the digit's value.  The digits
    are the ASCII ones; the class [\d] of [re] also has the decimal
    digits of other scripts, which are rejected here. *)
Definition p_range (lo hi : Z) : parser Z :=
  p_map (fun c => Z.of_nat (nat_of_ascii c) - 48)
        (p_sat (fun c => let v := Z.of_nat (nat_of_ascii c) - 48 in
                         (lo <=? v) && (v <=? hi))).

Definition p_digit : parser Z := p_range 0 9.

(** [p?], greedy. *)
Definition p_opt {A} (p : parser A) : parser (option A) :=
  p_alt (p_map Some p) (p_ret None).

(** Two characters [[lo-hi]\d] read as a number. *)
Definition p_two (lo hi : Z) : parser Z :=
  a <~ p_range lo hi ;; b <~ p_digit ;; p_ret (10 * a + b).

(** [%Y]: [\d\d\d\d]. *)
Definition re_Y : parser Z :=
  a <~ p_digit ;; b <~ p_digit ;; c <~ p_digit ;; d <~ p_digit ;;
  p_ret (1000 * a + 100 * b + 10 * c + d).

(** [%m]: [1[0-2]|0[1-9]|[1-9]]. *)
Definition re_m : parser Z :=
  p_alt (_ <~ p_range 1 1 ;; b <~ p_range 0 2 ;; p_ret (10 + b))
 (p_alt (_ <~ p_range 0 0 ;; b <~ p_range 1 9 ;; p_ret b)
        (p_range 1 9)).

(** [%d]: [3[0-1]|[1-2]\d|0[1-9]|[1-9]| [1-9]]. *)
Definition re_d : parser Z :=
  p_alt (_ <~ p_range 3 3 ;; b <~ p_range 0 1 ;; p_ret (30 + b))
 (p_alt (p_two 1 2)
 (p_alt (_ <~ p_range 0 0 ;; b <~ p_range 1 9 ;; p_ret b)
 (p_alt (p_range 1 9)
        (_ <~ p_char " " ;; p_range 1 9)))).

(** [%H]: [2[0-3]|[0-1]\d|\d]. *)
Definition re_H : parser Z :=
  p_alt (_ <~ p_range 2 2 ;; b <~ p_range 0 3 ;; p_ret (20 + b))
 (p_alt (p_two 0 1) p_digit).

(** [%M]: [[0-5]\d|\d]. *)
Definition re_M : parser Z := p_alt (p_two 0 5) p_digit.

(** [%S]: [6[0-1]|[0-5]\d|\d]. *)
Definition re_S : parser Z :=
  p_alt (_ <~ p_range 6 6 ;; b <~ p_range 0 1 ;; p_ret (60 + b))
 (p_alt (p_two 0 5) p_digit).

(** [\d{1,n}], greedy: the digits read, longest run first. *)
Fixpoint p_digits_upto (n : nat) : parser (list Z) :=
  match n with
  | O => fun _ => []
  | S n' => a <~ p_digit ;;
            p_alt (r <~ p_digits_upto n' ;; p_ret (a :: r)) (p_ret [a])
  end.

(** The value of [%f]: the digits padded with zeros to six. *)
Definition fraction_value (ds : list Z) : Z :=
  fold_left (fun acc d => 10 * acc + d) (firstn 6 (ds ++ repeat 0 6)) 0.

(** [%f]: [[0-9]{1,6}]. *)
Definition re_f : parser Z := p_map fraction_value (p_digits_upto 6).

(** What [%z] matched:
    [[+-]\d\d:?[0-5]\d(:?[0-5]\d(\.\d{1,6})?)?|(?-i:Z)]. *)
Inductive zone : Type :=
| ZoneZ
| ZoneOffset (negative : bool) (hh : Z) (colon1 : bool) (mm : Z)
             (secs : option (bool * Z * option (list Z))).

Definition p_colon_opt : parser bool :=
  p_map (fun o => match o with Some _ => true | None => false end)
        (p_opt (p_char ":")).

Definition re_z : parser zone :=
  p_alt
    (sg <~ p_sat (fun c => Ascii.eqb c "+" || Ascii.eqb c "-") ;;
     hh <~ p_two 0 9 ;;
     c1 <~ p_colon_opt ;;
     mm <~ p_two 0 5 ;;
     secs <~ p_opt (c2 <~ p_colon_opt ;;
                    ss <~ p_two 0 5 ;;
                    fr <~ p_opt (_ <~ p_char "." ;; p_digits_upto 6) ;;
                    p_ret (c2, ss, fr)) ;;
     p_ret (ZoneOffset (Ascii.eqb sg "-") hh c1 mm secs))
    (_ <~ p_char "Z" ;; p_ret ZoneZ).

(** The conversion of the [%z] group and the [timezone] constructor:
    a colon in one place only leaves a text [int] rejects or is reported
    as inconsistent, and an offset of a day or more is refused. *)
Definition zone_ok (z : zone) : bool :=
  match z with
  | ZoneZ => true
  | ZoneOffset _ hh c1 _ secs =>
      (hh <=? 23) &&
      match secs with
      | None => true
      | Some (c2, _, _) => Bool.eqb c1 c2
      end
  end.

(** [re.match] followed by the test that nothing is left over: the first
    match decides. *)
Definition full_match {A} (p : parser A) (s : string) : result A :=
  match p (list_ascii_of_string s) with
  | (a, []) :: _ => Ok a
  | _ => Raise ValueError
  end.

(** The regular expression of ['%Y-%m-%d']. *)
Definition re_Ymd : parser (Z * Z * Z) :=
  y <~ re_Y ;; _ <~ p_char "-" ;; m <~ re_m ;; _ <~ p_char "-" ;;
  d <~ re_d ;; p_ret (y, m, d).

(** [datetime.strptime(s, '%Y-%m-%d')]. *)
Definition strptime_Ymd (s : string) : result datetime :=
  result_bind (full_match re_Ymd s) (fun '(y, m, d) =>
  if check_date_fields y m d
  then Ok (mk_datetime (mk_date y m d) 0 0 0 0)
  else Raise ValueError).

(** The regular expression of ['%Y-%m-%dT%H:%M:%S.%f%z']; the literal
    [T] is matched ignoring case. *)
Definition re_iso : parser (Z * Z * Z * (Z * Z * Z * Z) * zone) :=
  ymd <~ re_Ymd ;;
  _ <~ p_sat (fun c => Ascii.eqb c "T" || Ascii.eqb c "t") ;;
  h <~ re_H ;; _ <~ p_char ":" ;; mi <~ re_M ;; _ <~ p_char ":" ;;
  s <~ re_S ;; _ <~ p_char "." ;; us <~ re_f ;; z <~ re_z ;;
  p_ret (ymd, (h, mi, s, us), z).

(** [datetime.strptime(s, '%Y-%m-%dT%H:%M:%S.%f%z')].  The result is
    aware; its [tzinfo] is left out because the checks only take
    [.date()], which does not convert. *)
Definition strptime_iso (s : string) : result datetime :=
  result_bind (full_match re_iso s) (fun '(y, m, d, (h, mi, sec, us), z) =>
  if zone_ok z && check_date_fields y m d && check_time_fields h mi sec us
  then Ok (mk_datetime (mk_date y m d) h mi sec us)
  else Raise ValueError).

(* ================================================================== *)
(** ** [str] operations used by the checks *)

(** [str.lower()] on one character. *)
Definition lower_ascii (c : ascii) : ascii :=
  let n := nat_of_ascii c in
  if ((65 <=? n) && (n <=? 90))%nat then ascii_of_nat (n + 32) else c.

(** [str.lower()] on ASCII text: [A-Z] become [a-z], every other byte is
    kept.  Beyond ASCII Python lowers more: KELVIN SIGN (U+212A) becomes
    [k], which this function does not do; what is stated about the text
    of comments is stated for ASCII comments. *)
Fixpoint lower (s : string) : string :=
  match s with
  | EmptyString => EmptyString
  | String c r => String (lower_ascii c) (lower r)
  end.

(** [needle in hay] on two [str]. *)
Fixpoint contains (needle hay : string) : bool :=
  String.prefix needle hay ||
  match hay with
  | EmptyString => false
  | String _ r => contains needle r
  end.

(** [x in l] on a list of [str]. *)
Definition str_in (x : string) (l : list string) : bool :=
  existsb (String.eqb x) l.

(** ["\n"]. *)
Definition newline : string := String (ascii_of_nat 10) EmptyString.

(** [n > 3] on a story-point value. *)
Definition gt3 (n : Q) : bool := negb (Qle_bool n 3).

(* ================================================================== *)
(** ** The tracker's objects *)

(** The attributes of a [jira] issue the checks read.  [issue.fields.x]
    is the field [x]; [issue.fields.issuetype.name] and [.subtask],
    [issue.fields.security.name], the [.name] of every component and
    version and the [.body] of every comment are the values stored here.
    An attribute the tracker sends as [null] is [None]. *)
Record issue : Type := mk_issue {
  key : string;
  issuetype_name : string;
  issuetype_subtask : bool;
  duedate : option string;
  resolutiondate : option string;
  fixVersions : list string;
  components : list string;
  labels : option (list string);
  customfield_11807 : option string;     (* implementer *)
  security : option string;              (* security.name *)
  customfield_10408 : option Q;          (* story points *)
  comments : list string }.

Record JiraProject : Type := mk_project {
  name : string;
  project_key : string;
  issues : list issue;
  project_manager : string;
  manager_phone : string }.

(* ================================================================== *)
(** ** Effects: exceptions and the wall clock *)

(** The wall clock: [clock n] is what the [n]-th call of
    [datetime.now()] returns, [reads] counts the calls made so far. *)
Record World : Type := mk_world {
  clock : nat -> datetime;
  reads : nat }.

Definition M (A : Type) : Type := World -> result A * World.

#[export] Instance M_ret : MRet M := fun A a w => (Ok a, w).

#[export] Instance M_bind : MBind M := fun A B f m w =>
  match m w with
  | (Ok a, w') => f a w'
  | (Raise e, w') => (Raise e, w')
  end.

Definition raise {A} (e : exn) : M A := fun w => (Raise e, w).

Definition lift {A} (r : result A) : M A := fun w => (r, w).

(** [datetime.now()]. *)
Definition datetime_now : M datetime :=
  fun w => (Ok (clock w (reads w)), mk_world (clock w) (S (reads w))).

(** The value the next call of [datetime.now()] returns. *)
Definition next_now (w : World) : datetime := clock w (reads w).

(** [err_list.append(x)]. *)
Definition append (err_list : list string) (x : string) : list string :=
  (err_list ++ [x])%list.

(* ================================================================== *)
(** ** [JiraCheckTool] *)

(** The comment text the story and bug checks scan. *)
Definition comment_text (i : issue) : string :=
  lower (fold_left (fun comment body => comment ++ (body ++ newline))
                   (comments i) "").

(** The due-date part of [__common_problem]. *)
Definition due_date_check (i : issue) (err_list : list string)
  : M (list string) :=
  match duedate i with
  | None => mret (append err_list "No DudeDate")
  | Some d =>
      due_date ← lift (strptime_Ymd d);
      match resolutiondate i with
      | None =>
          now ← datetime_now;
          mret (if datetime_gt now due_date
                then append err_list "Delay" else err_list)
      | Some r =>
          resolution ← lift (strptime_iso r);
          let resolution_date := dt_date resolution in
          mret (if date_gt resolution_date (dt_date due_date)
                then append err_list "Delay" else err_list)
      end
  end.

Definition __common_problem (i : issue) (err_list : list string)
  : M (list string) :=
  err_list ← due_date_check i err_list;
  let err_list := if (length (fixVersions i) =? 0)%nat
                  then append err_list "No FixVersions" else err_list in
  let err_list := if negb (str_in "chengdu" (components i))
                  then append err_list "No Component Chengdu" else err_list in
  let err_list := match labels i with
                  | None => append err_list "No Labels"
                  | Some _ => err_list
                  end in
  let err_list := match customfield_11807 i with
                  | None => append err_list "No Implementer"
                  | Some _ => err_list
                  end in
  security_name ← match security i with
                  | None => raise AttributeError
                  | Some n => mret n
                  end;
  mret (if negb (String.eqb "Askey-Secure" security_name)
        then append err_list "No Askey-Secure" else err_list).

(** The story-point rule shared by [check_story] and [check_bug]. *)
Definition story_point_check (i : issue) (err_list : list string)
  : list string :=
  match customfield_10408 i with
  | None => append (append err_list "No StoryPoints") "No SubTask"
  | Some n => if gt3 n && negb (issuetype_subtask i)
              then append err_list "No SubTask" else err_list
  end.

Definition check_story (i : issue) : M (list string) :=
  let err_list := [] in
  let comment := comment_text i in
  let err_list := if negb (contains "[commitlink]" comment)
                  then append err_list "No Code" else err_list in
  let err_list := if negb (contains "[version]" comment)
                     || negb (contains "[steps]" comment)
                     || negb (contains "[result]" comment)
                  then append err_list "No Verification" else err_list in
  let err_list := story_point_check i err_list in
  __common_problem i err_list.

Definition check_bug (i : issue) : M (list string) :=
  let err_list := [] in
  let comment := comment_text i in
  let err_list := if negb (contains "[analyse]" comment)
                  then append err_list "No Analyse" else err_list in
  let err_list := if negb (contains "[solution]" comment)
                  then append err_list "No Solution" else err_list in
  let err_list := if negb (contains "[commitlink]" comment)
                  then append err_list "No Code" else err_list in
  let err_list := if negb (contains "[version]" comment)
                     || negb (contains "[steps]" comment)
                     || negb (contains "[result]" comment)
                  then append err_list "No Verification" else err_list in
  let err_list := story_point_check i err_list in
  __common_problem i err_list.

Definition check_review (i : issue) : M (list string) :=
  let err_list := [] in
  let err_list := match customfield_10408 i with
                  | None => append err_list "No StoryPoints"
                  | Some _ => err_list
                  end in
  __common_problem i err_list.

Definition check_issue (i : issue) : M (list string) :=
  if String.eqb (issuetype_name i) "Story"
     || String.eqb (issuetype_name i) "故事"
  then check_story i
  else if String.eqb (issuetype_name i) "Bug"
          || String.eqb (issuetype_name i) "缺陷"
  then check_bug i
  else if String.eqb (issuetype_name i) "Review"
  then check_review i
  else mret [].

(** The loop of [get_project_problem] over the issues still to visit. *)
Fixpoint project_loop (l : list issue) (unqualified_issue_dict : gmap string (list string))
  : M (gmap string (list string)) :=
  match l with
  | [] => mret unqualified_issue_dict
  | i :: rest =>
      unqualified_issue ← check_issue i;
      project_loop rest
        (if negb (length unqualified_issue =? 0)%nat
         then <[key i := unqualified_issue]> unqualified_issue_dict
         else unqualified_issue_dict)
  end.

Definition get_project_problem (project : JiraProject)
  : M (gmap string (list string)) :=
  project_loop (issues project) ∅.

(* ================================================================== *)
(** ** The shape of a returned list *)

(** The codes one guarded [append] contributes. *)
Definition opt_code (b : bool) (x : string) : list string :=
  if b then [x] else [].

(** What [check_story] has appended when it calls [__common_problem]. *)
Definition story_codes (i : issue) : list string :=
  let comment := comment_text i in
  (opt_code (negb (contains "[commitlink]" comment)) "No Code" ++
   opt_code (negb (contains "[version]" comment)
             || negb (contains "[steps]" comment)
             || negb (contains "[result]" comment)) "No Verification" ++
   story_point_check i [])%list.

(** What [check_bug] has appended when it calls [__common_problem]. *)
Definition bug_codes (i : issue) : list string :=
  let comment := comment_text i in
  (opt_code (negb (contains "[analyse]" comment)) "No Analyse" ++
   opt_code (negb (contains "[solution]" comment)) "No Solution" ++
   opt_code (negb (contains "[commitlink]" comment)) "No Code" ++
   opt_code (negb (contains "[version]" comment)
             || negb (contains "[steps]" comment)
             || negb (contains "[result]" comment)) "No Verification" ++
   story_point_check i [])%list.

(** What [check_review] has appended when it calls [__common_problem]. *)
Definition review_codes (i : issue) : list string :=
  opt_code (bool_decide (customfield_10408 i = None)) "No StoryPoints".

(** What [__common_problem] appends after the due-date check, for an
    issue whose security level is named [sec]. *)
Definition static_codes (i : issue) (sec : string) : list string :=
  (opt_code (length (fixVersions i) =? 0)%nat "No FixVersions" ++
   opt_code (negb (str_in "chengdu" (components i))) "No Component Chengdu" ++
   opt_code (bool_decide (labels i = None)) "No Labels" ++
   opt_code (bool_decide (customfield_11807 i = None)) "No Implementer" ++
   opt_code (negb (String.eqb "Askey-Secure" sec)) "No Askey-Secure")%list.

(** The issue types that have a rule set. *)
Definition story_names : list string := ["Story"; "故事"].
Definition bug_names : list string := ["Bug"; "缺陷"].
Definition typed_names : list string := ["Story"; "故事"; "Bug"; "缺陷"; "Review"].

(** The rule set [check_issue] selects for a type name. *)
Definition type_codes (i : issue) : list string :=
  if str_in (issuetype_name i) story_names then story_codes i
  else if str_in (issuetype_name i) bug_names then bug_codes i
  else review_codes i.

(** The date texts the check reads are fine: there is no due date (the
    resolution date is then not read at all), or the due date parses and
    the resolution date is absent or parses. *)
Definition dates_parse (i : issue) : bool :=
  match duedate i with
  | None => true
  | Some d =>
      match strptime_Ymd d with
      | Raise _ => false
      | Ok _ => match resolutiondate i with
                | None => true
                | Some r => match strptime_iso r with
                            | Ok _ => true
                            | Raise _ => false
                            end
                end
      end
  end.

(** Every code a check can append, in the order of appending. *)
Definition all_codes : list string :=
  ["No Analyse"; "No Solution"; "No Code"; "No Verification";
   "No StoryPoints"; "No SubTask"; "No DudeDate"; "Delay";
   "No FixVersions"; "No Component Chengdu"; "No Labels";
   "No Implementer"; "No Askey-Secure"].

(** The issue is dispatched to [check_story], [check_bug] or
    [check_review]. *)
Definition is_typed (i : issue) : bool := str_in (issuetype_name i) typed_names.

(** The issue is dispatched to [check_story] or [check_bug]. *)
Definition is_story_or_bug (i : issue) : bool :=
  str_in (issuetype_name i) (story_names ++ bug_names).

(** The outcomes of the due-date check. *)
Inductive due_outcome (i : issue) (w : World) : result (list string) * World → Prop :=
| due_absent :
    duedate i = None →
    due_outcome i w (Ok ["No DudeDate"], w)
| due_unparsable d :
    duedate i = Some d → strptime_Ymd d = Raise ValueError →
    due_outcome i w (Raise ValueError, w)
| due_open d due :
    duedate i = Some d → strptime_Ymd d = Ok due →
    resolutiondate i = None →
    due_outcome i w
      (Ok (opt_code (datetime_gt (next_now w) due) "Delay"),
       mk_world (clock w) (S (reads w)))
| due_resolved_unparsable d due r :
    duedate i = Some d → strptime_Ymd d = Ok due →
    resolutiondate i = Some r → strptime_iso r = Raise ValueError →
    due_outcome i w (Raise ValueError, w)
| due_resolved d due r res :
    duedate i = Some d → strptime_Ymd d = Ok due →
    resolutiondate i = Some r → strptime_iso r = Ok res →
    due_outcome i w
      (Ok (opt_code (date_gt (dt_date res) (dt_date due)) "Delay"), w).

(* ================================================================== *)
(** ** Concrete issues and clocks *)

Definition midnight (y m d : Z) : datetime := mk_datetime (mk_date y m d) 0 0 0 0.

(** A clock that shows 10 January 2024, 00:00 at the first read and the
    same day one year later at each following read. *)
Definition yearly_clock : World :=
  mk_world (fun n => midnight (2024 + Z.of_nat n) 1 10) 0.

(** The issue AL-1 of the end-to-end scenario; the scenario leaves the
    resolution date open. *)
Definition AL_1 (resolution : option string) : issue :=
  mk_issue "AL-1" "Story" false None resolution [] ["other"] None None
           (Some "Askey-Secure") (Some 5%Q) [].

(** A story that passes every check. *)
Definition clean_story : issue :=
  mk_issue "AL-2" "Story" false (Some "2024-03-01")
           (Some "2024-02-27T10:30:00.000+0800") ["1.0"] ["chengdu"]
           (Some []) (Some "dev") (Some "Askey-Secure") (Some 3%Q)
           ["[CommitLink] abc"; "[Version] 1 [Steps] 2 [Result] 3"].

(** An issue with one field replaced. *)
Definition with_duedate (d : option string) (i : issue) : issue :=
  mk_issue (key i) (issuetype_name i) (issuetype_subtask i) d
           (resolutiondate i) (fixVersions i) (components i) (labels i)
           (customfield_11807 i) (security i) (customfield_10408 i)
           (comments i).

Definition with_resolutiondate (r : option string) (i : issue) : issue :=
  mk_issue (key i) (issuetype_name i) (issuetype_subtask i) (duedate i)
           r (fixVersions i) (components i) (labels i)
           (customfield_11807 i) (security i) (customfield_10408 i)
           (comments i).

Definition with_type (t : string) (i : issue) : issue :=
  mk_issue (key i) t (issuetype_subtask i) (duedate i)
           (resolutiondate i) (fixVersions i) (components i) (labels i)
           (customfield_11807 i) (security i) (customfield_10408 i)
           (comments i).

Definition with_security (s : option string) (i : issue) : issue :=
  mk_issue (key i) (issuetype_name i) (issuetype_subtask i) (duedate i)
           (resolutiondate i) (fixVersions i) (components i) (labels i)
           (customfield_11807 i) s (customfield_10408 i)
           (comments i).

Definition with_storypoints (n : option Q) (i : issue) : issue :=
  mk_issue (key i) (issuetype_name i) (issuetype_subtask i) (duedate i)
           (resolutiondate i) (fixVersions i) (components i) (labels i)
           (customfield_11807 i) (security i) n
           (comments i).

(** The project of the end-to-end scenario, with a second issue that
    passes every check. *)
Definition Alpha : JiraProject :=
  mk_project "Alpha" "AL" [clean_story; AL_1 None] "manager" "13800000000".

(* ================================================================== *)
(** ** Further definitions for the properties of the loop and of the
       report *)

(** The evaluation of the issue calls [datetime.now()]: the issue has a
    checked type, a due date and no resolution date. *)
Definition reads_clock (i : issue) : bool :=
  is_typed i &&
  match duedate i, resolutiondate i with
  | Some _, None => true
  | _, _ => false
  end.

(** An issue with another key. *)
Definition with_key (k : string) (i : issue) : issue :=
  mk_issue k (issuetype_name i) (issuetype_subtask i) (duedate i)
           (resolutiondate i) (fixVersions i) (components i) (labels i)
           (customfield_11807 i) (security i) (customfield_10408 i)
           (comments i).

(** The character occurs in the text. *)
Fixpoint has_char (c : ascii) (s : string) : bool :=
  match s with
  | EmptyString => false
  | String x r => Ascii.eqb x c || has_char c r
  end.


(** Some comment of the issue contains the marker, letter case
    ignored. *)
Definition mentions (marker : string) (i : issue) : bool :=
  existsb (fun body => contains marker (lower body)) (comments i).

(** An issue with other comments. *)
Definition with_comments (c : list string) (i : issue) : issue :=
  mk_issue (key i) (issuetype_name i) (issuetype_subtask i) (duedate i)
           (resolutiondate i) (fixVersions i) (components i) (labels i)
           (customfield_11807 i) (security i) (customfield_10408 i) c.

(* ================================================================== *)
(** ** The index in iteration order *)

(** A [dict] as its items in iteration order.  The index of
    [get_project_problem] above is the same mapping without the order;
    the report is written in the order. *)
Fixpoint odict_set (k : string) (v : list string)
    (d : list (string * list string)) : list (string * list string) :=
  match d with
  | [] => [(k, v)]
  | (k', v') :: r =>
      if String.eqb k' k then (k', v) :: r else (k', v') :: odict_set k v r
  end.

(** The loop of [get_project_problem], on the items. *)
Fixpoint project_loop_items (l : list issue)
    (unqualified_issue_dict : list (string * list string))
  : M (list (string * list string)) :=
  match l with
  | [] => mret unqualified_issue_dict
  | i :: rest =>
      unqualified_issue ← check_issue i;
      project_loop_items rest
        (if negb (length unqualified_issue =? 0)%nat
         then odict_set (key i) unqualified_issue unqualified_issue_dict
         else unqualified_issue_dict)
  end.

(** [get_project_problem], giving the items of the index in iteration
    order. *)
Definition get_project_problem_items (project : JiraProject)
  : M (list (string * list string)) :=
  project_loop_items (issues project) [].

(* ================================================================== *)
(** ** [DingDing] *)

(** The character of a code point below 128. *)
Definition chr (n : nat) : ascii := ascii_of_nat n.

Definition hex_digit (n : nat) : ascii :=
  if (n <? 10)%nat then chr (48 + n) else chr (87 + n).

(** [repr] of one character of a [str] quoted with [quote]: the quote
    and the backslash are escaped, tab, line feed and carriage return have
    their letters, the other control characters are written [\xhh]; bytes
    of a character beyond ASCII are kept, as [repr] does for printable
    text (a character beyond ASCII that is not printable, which [repr]
    escapes, is kept too). *)
Definition repr_char (quote c : ascii) : string :=
  let n := nat_of_ascii c in
  if Ascii.eqb c quote || Ascii.eqb c (chr 92)
  then String (chr 92) (String c "")
  else if (n =? 9)%nat then String (chr 92) "t"
  else if (n =? 10)%nat then String (chr 92) "n"
  else if (n =? 13)%nat then String (chr 92) "r"
  else if (n <? 32)%nat || (n =? 127)%nat
  then String (chr 92)
         (String "x" (String (hex_digit (n / 16)) (String (hex_digit (n mod 16)) "")))
  else String c "".

Fixpoint repr_chars (quote : ascii) (s : string) : string :=
  match s with
  | EmptyString => EmptyString
  | String c r => repr_char quote c ++ repr_chars quote r
  end.

(** [repr(s)] of a [str]: single quotes, unless the text has a single
    quote and no double quote. *)
Definition repr_str (s : string) : string :=
  let quote := if has_char (chr 39) s && negb (has_char (chr 34) s)
               then chr 34 else chr 39 in
  String quote (repr_chars quote s ++ String quote "").

(** [', '.join(l)]. *)
Fixpoint join_comma (l : list string) : string :=
  match l with
  | [] => ""
  | [x] => x
  | x :: r => x ++ ", " ++ join_comma r
  end.

(** [str(l)] of a list of [str], which an f-string writes for
    [{issue_info}]. *)
Definition str_of_list (l : list string) : string :=
  "[" ++ join_comma (map repr_str l) ++ "]".

(** The line the report has for one item of the index. *)
Definition report_line (item : string * list string) : string :=
  "    " ++ fst item ++ ": " ++ str_of_list (snd item) ++ newline.

Definition generate_project_dingding_report_by_issue_dict
    (project_name : string) (issue_dict : list (string * list string))
    (tag : string) : string :=
  fold_left (fun project_report item => project_report ++ report_line item)
            issue_dict
            ("---------- " ++ tag ++ " ----------" ++ newline ++
             project_name ++ newline).

(** What [send_message] hands to [requests.post]: the address and the
    fields of the payload. *)
Record message : Type := mk_message {
  msg_url : string;
  msg_content : string;
  msg_atMobiles : list string;
  msg_isAtAll : bool }.

(** [send_message] posts one message; an exception of the post is
    caught and logged, so the call always returns.  The messages posted
    so far are the state. *)
Definition send_message (url msg project_manager manager_phone : string)
    (posted : list message) : list message :=
  (posted ++ [mk_message url msg [manager_phone] false])%list.

(** The loop of [main] over the projects the tracker returned, with the
    address and the tag of the configuration. *)
Fixpoint main_loop (robot_url robot_tag : string)
    (list_project : list JiraProject) (posted : list message) (w : World)
  : result unit * list message * World :=
  match list_project with
  | [] => (Ok tt, posted, w)
  | project :: rest =>
      match get_project_problem_items project w with
      | (Raise e, w') => (Raise e, posted, w')
      | (Ok project_issue_dict, w') =>
          main_loop robot_url robot_tag rest
            (if negb (length project_issue_dict =? 0)%nat
             then send_message robot_url
                    (generate_project_dingding_report_by_issue_dict
                       (name project) project_issue_dict robot_tag)
                    (project_manager project) (manager_phone project) posted
             else posted) w'
      end
  end.

(** How often the character occurs in the text. *)
Fixpoint count_char (c : ascii) (s : string) : nat :=
  match s with
  | EmptyString => O
  | String x r => ((if Ascii.eqb x c then 1 else 0) + count_char c r)%nat
  end.

(** The items of the index of [Alpha] and the message [main] posts for
    it. *)
Definition Alpha_items : list (string * list string) :=
  [("AL-1", ["No Code"; "No Verification"; "No SubTask"; "No DudeDate";
             "No FixVersions"; "No Component Chengdu"; "No Labels";
             "No Implementer"])].

Definition Alpha_message (robot_url robot_tag : string) : message :=
  mk_message robot_url
    (generate_project_dingding_report_by_issue_dict "Alpha" Alpha_items
       robot_tag)
    ["13800000000"] false.

(** A project whose only issue has no security level. *)
Definition Beta : JiraProject :=
  mk_project "Beta" "BE" [with_security None clean_story] "manager" "13900000000".

(** The character of a decimal digit. *)
Definition digit_char (n : Z) : ascii := ascii_of_nat (48 + Z.to_nat n).

(** A date as the tracker writes it, [YYYY-MM-DD] with leading zeros. *)
Definition format_Ymd (y m d : Z) : string :=
  String (digit_char (y / 1000))
 (String (digit_char (y / 100 mod 10))
 (String (digit_char (y / 10 mod 10))
 (String (digit_char (y mod 10))
 (String "-"
 (String (digit_char (m / 10))
 (String (digit_char (m mod 10))
 (String "-"
 (String (digit_char (d / 10))
 (String (digit_char (d mod 10)) ""))))))))).

(** The expression of ['%Y-%m-%d'] after the year. *)
Definition re_md_after (y : Z) : parser (Z * Z * Z) :=
  _ <~ p_char "-" ;; m <~ re_m ;; _ <~ p_char "-" ;;
  d <~ re_d ;; p_ret (y, m, d).

(** [-MM-DD] with leading zeros. *)
Definition format_md (m d : Z) : list ascii :=
  ["-"%char; digit_char (m / 10); digit_char (m mod 10); "-"%char;
   digit_char (d / 10); digit_char (d mod 10)].

(* ================================================================== *)
(** ** Tactics *)

(** Case analysis on every guard of a list of codes. *)
Ltac split_guards :=
  repeat match goal with
         | |- context [opt_code ?b _] =>
             lazymatch b with
             | true => fail
             | false => fail
             | _ => destruct b
             end
         end;
  unfold opt_code.

(** A code that is not in a literal list of codes. *)
Ltac not_listed H :=
  rewrite ?elem_of_cons, ?elem_of_nil in H;
  repeat match type of H with
         | _ ∨ _ => destruct H as [H|H]
         end;
  solve [discriminate H | destruct H].

(* ================================================================== *)
(** ** Helper lemmas *)

Lemma append_opt_code (b : bool) (acc : list string) (x : string) :
  (if b then append acc x else acc) = (acc ++ opt_code b x)%list.
Proof. destruct b; simpl; [reflexivity | by rewrite app_nil_r]. Qed.

Lemma elem_of_opt_code (b : bool) (x y : string) :
  y ∈ opt_code b x ↔ b = true ∧ y = x.
Proof.
  destruct b; simpl.
  - rewrite list_elem_of_singleton. split; [by intros -> | by intros [_ ->]].
  - split; [intros H; by apply elem_of_nil in H | by intros [? _]].
Qed.

Lemma opt_code_sublist (b : bool) (x : string) : opt_code b x `sublist_of` [x].
Proof. destruct b; simpl; [done | apply sublist_nil_l]. Qed.

Lemma story_point_check_acc (i : issue) (acc : list string) :
  story_point_check i acc = (acc ++ story_point_check i [])%list.
Proof.
  unfold story_point_check, append.
  destruct (customfield_10408 i) as [n|]; simpl.
  - destruct (gt3 n && negb (issuetype_subtask i)); simpl;
      [reflexivity | by rewrite app_nil_r].
  - by rewrite <- app_assoc.
Qed.

Lemma check_story_eq (i : issue) :
  check_story i = __common_problem i (story_codes i).
Proof.
  unfold check_story, story_codes. cbv zeta.
  rewrite !append_opt_code, story_point_check_acc.
  by rewrite app_nil_l, <- !app_assoc.
Qed.

Lemma check_bug_eq (i : issue) :
  check_bug i = __common_problem i (bug_codes i).
Proof.
  unfold check_bug, bug_codes. cbv zeta.
  rewrite !append_opt_code, story_point_check_acc.
  by rewrite app_nil_l, <- !app_assoc.
Qed.

Lemma check_review_eq (i : issue) :
  check_review i = __common_problem i (review_codes i).
Proof.
  unfold check_review, review_codes. cbv zeta.
  by destruct (customfield_10408 i).
Qed.

Lemma str_in_elem_of (x : string) (l : list string) :
  str_in x l = true ↔ x ∈ l.
Proof.
  unfold str_in. rewrite existsb_exists, list_elem_of_In. split.
  - intros (y & Hy & ->%String.eqb_eq). exact Hy.
  - intros Hx. exists x. split; [exact Hx | apply String.eqb_refl].
Qed.

(** [check_issue] on a type with a rule set is [__common_problem] after
    the codes of that type. *)
Lemma check_issue_typed (i : issue) :
  issuetype_name i ∈ typed_names →
  check_issue i = __common_problem i (type_codes i).
Proof.
  intros Ht. unfold check_issue, type_codes, story_names, bug_names, str_in.
  simpl existsb. rewrite !orb_false_r.
  destruct (String.eqb (issuetype_name i) "Story") eqn:H1;
    [apply check_story_eq |].
  destruct (String.eqb (issuetype_name i) "故事") eqn:H2;
    [apply check_story_eq |].
  destruct (String.eqb (issuetype_name i) "Bug") eqn:H3;
    [apply check_bug_eq |].
  destruct (String.eqb (issuetype_name i) "缺陷") eqn:H4;
    [apply check_bug_eq |].
  destruct (String.eqb (issuetype_name i) "Review") eqn:H5;
    [apply check_review_eq |].
  exfalso. apply String.eqb_neq in H1, H2, H3, H4, H5.
  unfold typed_names in Ht.
  rewrite !elem_of_cons, elem_of_nil in Ht. intuition congruence.
Qed.

Lemma check_issue_untyped (i : issue) :
  issuetype_name i ∉ typed_names → check_issue i = mret [].
Proof.
  intros Ht. unfold check_issue.
  assert (∀ s, s ∈ typed_names → String.eqb (issuetype_name i) s = false) as H.
  { intros s Hs. apply String.eqb_neq. intros <-. by apply Ht. }
  rewrite !H; [reflexivity | unfold typed_names; rewrite !elem_of_cons; tauto ..].
Qed.

(** The due-date check only appends. *)
Lemma due_date_check_acc (i : issue) (acc : list string) (w : World) :
  due_date_check i acc w =
  match due_date_check i [] w with
  | (Ok dd, w') => (Ok (acc ++ dd)%list, w')
  | (Raise e, w') => (Raise e, w')
  end.
Proof.
  unfold due_date_check, append.
  destruct (duedate i) as [d|]; [| reflexivity].
  unfold mbind, M_bind, lift, mret, M_ret, datetime_now.
  destruct (strptime_Ymd d) as [due|e]; [| reflexivity].
  destruct (resolutiondate i) as [r|].
  - destruct (strptime_iso r) as [res|e]; [| reflexivity].
    destruct (date_gt _ _); simpl; [reflexivity | by rewrite app_nil_r].
  - destruct (datetime_gt _ _); simpl; [reflexivity | by rewrite app_nil_r].
Qed.

Lemma strptime_Ymd_exn (s : string) (e : exn) :
  strptime_Ymd s = Raise e → e = ValueError.
Proof.
  unfold strptime_Ymd, full_match, result_bind.
  destruct (re_Ymd _) as [|[[[y m] d] [|? ?]] ?]; try congruence.
  destruct (check_date_fields y m d); congruence.
Qed.

Lemma strptime_iso_exn (s : string) (e : exn) :
  strptime_iso s = Raise e → e = ValueError.
Proof.
  unfold strptime_iso, full_match, result_bind.
  destruct (re_iso _) as [|[[[[[y m] d] [[[h mi] sec] us]] z] [|? ?]] ?];
    try congruence.
  destruct (_ && _); congruence.
Qed.

Lemma due_date_check_outcome (i : issue) (w : World) :
  due_outcome i w (due_date_check i [] w).
Proof.
  unfold due_date_check.
  destruct (duedate i) as [d|] eqn:Hd; [| by apply due_absent].
  unfold mbind, M_bind, lift, mret, M_ret, datetime_now.
  destruct (strptime_Ymd d) as [due|e] eqn:Hp.
  - destruct (resolutiondate i) as [r|] eqn:Hr.
    + destruct (strptime_iso r) as [res|e] eqn:Hq.
      * rewrite append_opt_code. simpl. by eapply due_resolved.
      * pose proof (strptime_iso_exn _ _ Hq) as ->.
        by eapply due_resolved_unparsable.
    + rewrite append_opt_code. simpl. by eapply due_open.
  - pose proof (strptime_Ymd_exn _ _ Hp) as ->. by eapply due_unparsable.
Qed.

(** [__common_problem] is the due-date check, then the codes that only
    depend on the issue, then the read of [security.name]. *)
Lemma common_problem_eq (i : issue) (acc : list string) (w : World) :
  __common_problem i acc w =
  match due_date_check i [] w with
  | (Ok dd, w') =>
      match security i with
      | Some sec => (Ok (acc ++ dd ++ static_codes i sec)%list, w')
      | None => (Raise AttributeError, w')
      end
  | (Raise e, w') => (Raise e, w')
  end.
Proof.
  unfold __common_problem.
  unfold mbind at 1. unfold M_bind at 1.
  rewrite due_date_check_acc.
  destruct (due_date_check i [] w) as [[dd|e] w']; [| reflexivity].
  cbv zeta. unfold mbind, M_bind, raise, mret, M_ret.
  destruct (security i) as [sec|]; [| reflexivity].
  rewrite !append_opt_code. unfold static_codes, append.
  destruct (labels i), (customfield_11807 i); simpl;
    rewrite ?app_nil_r, <- ?app_assoc; reflexivity.
Qed.

(** The list a rule set returns: the codes of the type, the outcome of
    the due-date check, the codes that only depend on the issue. *)
Lemma check_issue_list (i : issue) (w : World) (l : list string) :
  issuetype_name i ∈ typed_names →
  fst (check_issue i w) = Ok l →
  ∃ dd sec,
    security i = Some sec ∧
    l = (type_codes i ++ dd ++ static_codes i sec)%list ∧
    ((duedate i = None ∧ dd = ["No DudeDate"]) ∨
     (duedate i ≠ None ∧ ∃ b, dd = opt_code b "Delay")).
Proof.
  intros Ht. rewrite (check_issue_typed i Ht), common_problem_eq.
  destruct (due_date_check_outcome i w) as
    [Hd | d Hd Hp | d due Hd Hp Hr | d due r Hd Hp Hr Hq | d due r res Hd Hp Hr Hq];
    cbv beta iota delta [fst]; try discriminate;
    (destruct (security i) as [sec|]; [| discriminate]); intros Hl.
  - exists ["No DudeDate"], sec. split; [reflexivity |].
    split; [by injection Hl | by left].
  - eexists (opt_code _ "Delay"), sec. split; [reflexivity |].
    split; [by injection Hl | right]. rewrite Hd. split; [discriminate | by eexists].
  - eexists (opt_code _ "Delay"), sec. split; [reflexivity |].
    split; [by injection Hl | right]. rewrite Hd. split; [discriminate | by eexists].
Qed.

(** When evaluation returns a list: both date texts are absent or parse
    and the security level is there. *)
Lemma check_issue_returns (i : issue) (w : World) (sec : string) :
  issuetype_name i ∈ typed_names →
  dates_parse i = true →
  security i = Some sec →
  ∃ l, fst (check_issue i w) = Ok l.
Proof.
  intros Ht Hp Hs. rewrite (check_issue_typed i Ht), common_problem_eq, Hs.
  unfold dates_parse in Hp.
  destruct (due_date_check_outcome i w) as
    [Hd | d Hd Hq | d due Hd Hq Hr | d due r Hd Hq Hr Hq' | d due r res Hd Hq Hr Hq'];
    simpl; try (by eexists);
    rewrite Hd, Hq in Hp; try discriminate.
  rewrite Hr, Hq' in Hp. discriminate.
Qed.

(** The world after an evaluation: the clock is the same, and it has
    been read once exactly when the due date parses and the issue is
    not resolved. *)
Lemma due_date_check_world (i : issue) (w : World) :
  clock (snd (due_date_check i [] w)) = clock w ∧
  (reads w ≤ reads (snd (due_date_check i [] w)) ≤ S (reads w))%nat.
Proof.
  destruct (due_date_check_outcome i w); simpl; (split; [reflexivity | lia]).
Qed.

Lemma check_issue_world (i : issue) (w : World) :
  clock (snd (check_issue i w)) = clock w ∧
  (reads w ≤ reads (snd (check_issue i w)) ≤ S (reads w))%nat.
Proof.
  destruct (decide (issuetype_name i ∈ typed_names)) as [Ht|Ht].
  - rewrite (check_issue_typed i Ht), common_problem_eq.
    pose proof (due_date_check_world i w) as H.
    destruct (due_date_check i [] w) as [[dd|e] w']; simpl in *; [| exact H].
    by destruct (security i).
  - rewrite (check_issue_untyped i Ht). simpl. split; [reflexivity | lia].
Qed.

Lemma due_date_check_same_now (i : issue) (w1 w2 : World) :
  next_now w1 = next_now w2 →
  fst (due_date_check i [] w1) = fst (due_date_check i [] w2).
Proof.
  intros Hn. unfold due_date_check.
  destruct (duedate i) as [d|]; [| reflexivity].
  unfold mbind, M_bind, lift, mret, M_ret, datetime_now.
  destruct (strptime_Ymd d) as [due|e]; [| reflexivity].
  destruct (resolutiondate i) as [r|].
  - by destruct (strptime_iso r).
  - simpl. unfold next_now in Hn. by rewrite Hn.
Qed.

Lemma all_codes_NoDup : NoDup all_codes.
Proof. apply (bool_decide_unpack _). vm_compute. reflexivity. Qed.

Lemma story_point_check_sublist (i : issue) :
  story_point_check i [] `sublist_of` ["No StoryPoints"; "No SubTask"].
Proof.
  unfold story_point_check, append.
  destruct (customfield_10408 i) as [n|]; simpl; [| done].
  destruct (gt3 n && negb (issuetype_subtask i)); simpl; repeat constructor.
Qed.

Lemma type_codes_sublist (i : issue) :
  type_codes i `sublist_of`
    ["No Analyse"; "No Solution"; "No Code"; "No Verification";
     "No StoryPoints"; "No SubTask"].
Proof.
  pose proof (story_point_check_sublist i) as Hsp.
  unfold type_codes, story_codes, bug_codes, review_codes. cbv zeta.
  destruct (str_in _ story_names); [| destruct (str_in _ bug_names)].
  - do 2 apply sublist_cons.
    apply (sublist_app _ ["No Code"]); [apply opt_code_sublist |].
    apply (sublist_app _ ["No Verification"]); [apply opt_code_sublist |].
    exact Hsp.
  - apply (sublist_app _ ["No Analyse"]); [apply opt_code_sublist |].
    apply (sublist_app _ ["No Solution"]); [apply opt_code_sublist |].
    apply (sublist_app _ ["No Code"]); [apply opt_code_sublist |].
    apply (sublist_app _ ["No Verification"]); [apply opt_code_sublist |].
    exact Hsp.
  - split_guards; repeat constructor.
Qed.

Lemma static_codes_sublist (i : issue) (sec : string) :
  static_codes i sec `sublist_of`
    ["No FixVersions"; "No Component Chengdu"; "No Labels";
     "No Implementer"; "No Askey-Secure"].
Proof.
  unfold static_codes.
  apply (sublist_app _ ["No FixVersions"]); [apply opt_code_sublist |].
  apply (sublist_app _ ["No Component Chengdu"]); [apply opt_code_sublist |].
  apply (sublist_app _ ["No Labels"]); [apply opt_code_sublist |].
  apply (sublist_app _ ["No Implementer"]); apply opt_code_sublist.
Qed.

Lemma is_typed_elem_of (i : issue) :
  is_typed i = true → issuetype_name i ∈ typed_names.
Proof. apply str_in_elem_of. Qed.

Lemma is_typed_false (i : issue) :
  is_typed i = false → issuetype_name i ∉ typed_names.
Proof.
  intros H Hin. apply str_in_elem_of in Hin. unfold is_typed in H. congruence.
Qed.

Lemma story_or_bug_typed (i : issue) :
  is_story_or_bug i = true → is_typed i = true.
Proof.
  unfold is_story_or_bug, is_typed. rewrite !str_in_elem_of.
  unfold story_names, bug_names, typed_names. simpl.
  rewrite !elem_of_cons. tauto.
Qed.

(** The codes of a story or a bug end with the story-point rule, and
    nothing before it names a story-point code. *)
Lemma story_or_bug_codes (i : issue) :
  is_story_or_bug i = true →
  ∃ pre, type_codes i = (pre ++ story_point_check i [])%list ∧
         ("No StoryPoints" ∉ pre) ∧ ("No SubTask" ∉ pre).
Proof.
  intros H. unfold is_story_or_bug, str_in in H. rewrite existsb_app in H.
  fold (str_in (issuetype_name i) story_names) in H.
  fold (str_in (issuetype_name i) bug_names) in H.
  unfold type_codes.
  destruct (str_in _ story_names); [| destruct (str_in _ bug_names)];
    [| | discriminate].
  - unfold story_codes. cbv zeta.
    exists (opt_code (negb (contains "[commitlink]" (comment_text i))) "No Code" ++
            opt_code (negb (contains "[version]" (comment_text i))
                      || negb (contains "[steps]" (comment_text i))
                      || negb (contains "[result]" (comment_text i)))
                     "No Verification")%list.
    split; [by rewrite <- app_assoc |].
    rewrite !elem_of_app, !elem_of_opt_code.
    split; intros [[_ ?]|[_ ?]]; discriminate.
  - unfold bug_codes. cbv zeta.
    exists (opt_code (negb (contains "[analyse]" (comment_text i))) "No Analyse" ++
            opt_code (negb (contains "[solution]" (comment_text i))) "No Solution" ++
            opt_code (negb (contains "[commitlink]" (comment_text i))) "No Code" ++
            opt_code (negb (contains "[version]" (comment_text i))
                      || negb (contains "[steps]" (comment_text i))
                      || negb (contains "[result]" (comment_text i)))
                     "No Verification")%list.
    split; [by rewrite <- !app_assoc |].
    rewrite !elem_of_app, !elem_of_opt_code.
    split; intros [[_ ?]|[[_ ?]|[[_ ?]|[_ ?]]]]; discriminate.
Qed.

Lemma elem_of_static_codes (i : issue) (sec x : string) :
  x ∈ static_codes i sec →
  x ∈ ["No FixVersions"; "No Component Chengdu"; "No Labels";
       "No Implementer"; "No Askey-Secure"].
Proof.
  intros H. eapply elem_of_sublist; [exact H | apply static_codes_sublist].
Qed.

Lemma elem_of_type_codes (i : issue) (x : string) :
  x ∈ type_codes i →
  x ∈ ["No Analyse"; "No Solution"; "No Code"; "No Verification";
       "No StoryPoints"; "No SubTask"].
Proof.
  intros H. eapply elem_of_sublist; [exact H | apply type_codes_sublist].
Qed.

Lemma project_loop_cons (i : issue) (rest : list issue)
    (d : gmap string (list string)) (w : World) :
  project_loop (i :: rest) d w =
  match check_issue i w with
  | (Ok u, w1) =>
      project_loop rest
        (if negb (length u =? 0)%nat then <[key i := u]> d else d) w1
  | (Raise e, w1) => (Raise e, w1)
  end.
Proof. reflexivity. Qed.

(** The loop keeps the index free of empty lists. *)
Lemma project_loop_nonempty (l : list issue) :
  ∀ (d d' : gmap string (list string)) (w w' : World),
    project_loop l d w = (Ok d', w') →
    (∀ k v, d !! k = Some v → v ≠ []) →
    ∀ k v, d' !! k = Some v → v ≠ [].
Proof.
  induction l as [|i rest IH]; intros d d' w w' Hrun Hd.
  - injection Hrun as <- _. exact Hd.
  - rewrite project_loop_cons in Hrun.
    destruct (check_issue i w) as [[u|e] w1]; [| discriminate].
    apply (IH _ _ _ _ Hrun).
    destruct u as [|c u]; simpl; [exact Hd |].
    intros k v. rewrite lookup_insert. case_decide.
    + by intros [= <-].
    + apply Hd.
Qed.

(** The loop leaves alone the keys of the issues it does not visit. *)
Lemma project_loop_other_key (l : list issue) (k : string) :
  ∀ (d d' : gmap string (list string)) (w w' : World),
    project_loop l d w = (Ok d', w') →
    k ∉ key <$> l →
    d' !! k = d !! k.
Proof.
  induction l as [|i rest IH]; intros d d' w w' Hrun Hk.
  - by injection Hrun as <- _.
  - rewrite project_loop_cons in Hrun.
    destruct (check_issue i w) as [[u|e] w1]; [| discriminate].
    rewrite fmap_cons, not_elem_of_cons in Hk. destruct Hk as [Hne Hk].
    rewrite (IH _ _ _ _ Hrun Hk).
    destruct (negb _); [| reflexivity].
    by apply lookup_insert_ne.
Qed.

(** The loop over [pre ++ post] is the loop over [pre], then over
    [post]. *)
Lemma project_loop_app (pre post : list issue) :
  ∀ (d d' : gmap string (list string)) (w w' : World),
    project_loop (pre ++ post) d w = (Ok d', w') →
    ∃ d1 w1, project_loop pre d w = (Ok d1, w1) ∧
             project_loop post d1 w1 = (Ok d', w').
Proof.
  induction pre as [|i rest IH]; intros d d' w w' Hrun.
  - by exists d, w.
  - rewrite <- app_comm_cons, project_loop_cons in Hrun.
    rewrite project_loop_cons.
    destruct (check_issue i w) as [[u|e] w1]; [| discriminate].
    by apply IH.
Qed.

Lemma dates_parse_outcome (i : issue) (w : World) :
  match fst (due_date_check i [] w) with
  | Ok _ => dates_parse i = true
  | Raise e => e = ValueError ∧ dates_parse i = false
  end.
Proof.
  unfold dates_parse.
  destruct (due_date_check_outcome i w) as
    [Hd | d Hd Hq | d due Hd Hq Hr | d due r Hd Hq Hr Hq' | d due r res Hd Hq Hr Hq'];
    cbv beta iota delta [fst]; rewrite Hd; try reflexivity;
    rewrite Hq; try (split; reflexivity); rewrite Hr; try reflexivity;
    rewrite Hq'; [split |]; reflexivity.
Qed.

(** The outcomes of [check_issue] on an issue of a checked type: a
    list, when the date texts read are fine and the security level is
    there; [ValueError], when a date text read does not parse;
    [AttributeError], when the dates are fine and the security level is
    missing. *)
Lemma check_issue_outcome (i : issue) (w : World) :
  issuetype_name i ∈ typed_names →
  match fst (check_issue i w) with
  | Ok _ => dates_parse i = true ∧ is_Some (security i)
  | Raise e =>
      (e = ValueError ∧ dates_parse i = false) ∨
      (e = AttributeError ∧ dates_parse i = true ∧ security i = None)
  end.
Proof.
  intros Ht. rewrite (check_issue_typed i Ht), common_problem_eq.
  pose proof (dates_parse_outcome i w) as Hp.
  destruct (due_date_check i [] w) as [[dd|e] w1];
    cbv beta iota delta [fst] in Hp |- *.
  - destruct (security i) as [sec|]; cbv beta iota delta [fst].
    + split; [exact Hp | by eexists].
    + right. by repeat split.
  - left. exact Hp.
Qed.

(* ================================================================== *)
(** ** The embedding on concrete texts *)

Example strptime_Ymd_plain :
  strptime_Ymd "2024-03-01" = Ok (midnight 2024 3 1).
Proof. reflexivity. Qed.

Example strptime_Ymd_short_fields :
  strptime_Ymd "2024-3-1" = Ok (midnight 2024 3 1).
Proof. reflexivity. Qed.

Example strptime_Ymd_leftover : strptime_Ymd "2024-03-011" = Raise ValueError.
Proof. reflexivity. Qed.

Example strptime_Ymd_no_such_day : strptime_Ymd "2023-02-29" = Raise ValueError.
Proof. reflexivity. Qed.

Example strptime_iso_tracker :
  strptime_iso "2024-02-27T10:30:00.000+0800"
  = Ok (mk_datetime (mk_date 2024 2 27) 10 30 0 0).
Proof. reflexivity. Qed.

Example strptime_iso_needs_zone :
  strptime_iso "2024-02-27T10:30:00.000" = Raise ValueError.
Proof. reflexivity. Qed.

Example comment_text_lowered :
  contains "[commitlink]" (comment_text clean_story) = true.
Proof. reflexivity. Qed.

Example same_day_is_not_late :
  datetime_gt (midnight 2024 1 10) (midnight 2024 1 10) = false ∧
  datetime_gt (mk_datetime (mk_date 2024 1 10) 0 0 0 1) (midnight 2024 1 10)
    = true.
Proof. split; reflexivity. Qed.

(* ================================================================== *)
(** ** The end-to-end scenario *)

(** C1, as stated: AL-1 would be reported with [No StoryPoints] although
    its story points are 5.  The code does not return that list. *)
Lemma AL_1_claimed_list_refuted :
  fst (check_issue (AL_1 None) yearly_clock) ≠
  Ok ["No Code"; "No Verification"; "No StoryPoints"; "No SubTask";
      "No DudeDate"; "No FixVersions"; "No Component Chengdu"; "No Labels";
      "No Implementer"].
Proof. vm_compute. discriminate. Qed.

(** C1, amended: for AL-1 (a story with 5 story points that is not a
    subtask, no due date, no fix versions, components [other], no labels,
    no implementer, security level [Askey-Secure], no comments),
    [check_issue] returns the type-specific codes [No Code],
    [No Verification], [No SubTask] followed by the common codes
    [No DudeDate], [No FixVersions], [No Component Chengdu], [No Labels],
    [No Implementer]; [No StoryPoints] and [No Askey-Secure] are absent and
    the clock is not read. *)
Theorem check_issue_AL_1 (resolution : option string) (w : World) :
  check_issue (AL_1 resolution) w =
  (Ok ["No Code"; "No Verification"; "No SubTask"; "No DudeDate";
       "No FixVersions"; "No Component Chengdu"; "No Labels";
       "No Implementer"], w).
Proof. reflexivity. Qed.

(* ================================================================== *)
(** ** A due date that does not parse *)

(** C2, as stated: a malformed due date would be reported as
    [No DudeDate].  On a story whose due date is written with slashes the
    evaluation raises [ValueError] and returns no list. *)
Lemma malformed_duedate_raises :
  strptime_Ymd "2024/01/15" = Raise ValueError ∧
  fst (check_issue (with_duedate (Some "2024/01/15") clean_story) yearly_clock)
    = Raise ValueError ∧
  ¬ (∃ l, fst (check_issue (with_duedate (Some "2024/01/15") clean_story)
                           yearly_clock) = Ok l ∧ "No DudeDate" ∈ l).
Proof.
  split; [reflexivity |]. split; [reflexivity |].
  intros (l & Hl & _). vm_compute in Hl. discriminate.
Qed.

(** C2, amended: for an issue of a checked type whose due date is
    present and is rejected by [strptime] with ['%Y-%m-%d'], the
    evaluation raises [ValueError] before the clock is read; and whenever
    a list is returned, it contains [No DudeDate] exactly when the due
    date is [None]. *)
Theorem unparsable_duedate_raises (i : issue) (w : World) :
  is_typed i = true →
  (∀ d, duedate i = Some d → strptime_Ymd d = Raise ValueError →
        check_issue i w = (Raise ValueError, w)) ∧
  (∀ l, fst (check_issue i w) = Ok l →
        "No DudeDate" ∈ l ↔ duedate i = None).
Proof.
  intros Ht%is_typed_elem_of. split.
  - intros d Hd Hp. rewrite (check_issue_typed i Ht), common_problem_eq.
    unfold due_date_check. rewrite Hd.
    unfold mbind, M_bind, lift. by rewrite Hp.
  - intros l Hl.
    destruct (check_issue_list i w l Ht Hl) as (dd & sec & _ & -> & Hdd).
    rewrite !elem_of_app. split.
    + intros [H|[H|H]].
      * apply elem_of_type_codes in H. not_listed H.
      * destruct Hdd as [[Hd _]|[_ [b ->]]]; [exact Hd |].
        apply elem_of_opt_code in H as [_ H]. discriminate H.
      * apply elem_of_static_codes in H. not_listed H.
    + intros Hd. right. left.
      destruct Hdd as [[_ ->]|[Hn _]]; [| done].
      by apply list_elem_of_singleton.
Qed.

(** The theorem on the story whose due date is written with slashes. *)
Lemma unparsable_duedate_raises_witness :
  check_issue (with_duedate (Some "2024/01/15") clean_story) yearly_clock
  = (Raise ValueError, yearly_clock).
Proof.
  apply (proj1 (unparsable_duedate_raises
                  (with_duedate (Some "2024/01/15") clean_story)
                  yearly_clock eq_refl) "2024/01/15"); reflexivity.
Defined.

(* ================================================================== *)
(** ** Issue types without a rule set *)

(** C3, as stated: every type name other than [Story], [Bug] and
    [Review] would give the empty list.  The localized name of a story
    is none of the three and is checked as a story. *)
Lemma localized_story_checked :
  issuetype_name (with_type "故事" (AL_1 None)) ≠ "Story" ∧
  issuetype_name (with_type "故事" (AL_1 None)) ≠ "Bug" ∧
  issuetype_name (with_type "故事" (AL_1 None)) ≠ "Review" ∧
  fst (check_issue (with_type "故事" (AL_1 None)) yearly_clock) =
    Ok ["No Code"; "No Verification"; "No SubTask"; "No DudeDate";
        "No FixVersions"; "No Component Chengdu"; "No Labels";
        "No Implementer"] ∧
  fst (check_issue (with_type "故事" (AL_1 None)) yearly_clock) ≠ Ok [].
Proof.
  repeat split; try (vm_compute; discriminate). 
Qed.

(** C3, amended: for every issue whose type name is none of [Story],
    [故事], [Bug], [缺陷] and [Review], [check_issue] returns the empty
    list; it raises nothing and does not read the clock. *)
Theorem check_issue_other_type (i : issue) (w : World) :
  is_typed i = false → check_issue i w = (Ok [], w).
Proof.
  intros Ht%is_typed_false. by rewrite (check_issue_untyped i Ht).
Qed.

(** The theorem on an issue of type [Task]. *)
Lemma check_issue_other_type_witness :
  check_issue (with_type "Task" (AL_1 None)) yearly_clock = (Ok [], yearly_clock).
Proof.
  apply (check_issue_other_type (with_type "Task" (AL_1 None)) yearly_clock).
  reflexivity.
Defined.

(* ================================================================== *)
(** ** The security level *)

(** A story that passes every other check and has no security level
    raises [AttributeError]; a story with the level [Public] and a due
    date that does not parse raises [ValueError]. *)
Lemma absent_security_raises :
  fst (check_issue (with_security None clean_story) yearly_clock)
    = Raise AttributeError ∧
  fst (check_issue (with_duedate (Some "2024/01/15")
                      (with_security (Some "Public") clean_story))
                   yearly_clock)
    = Raise ValueError.
Proof. split; reflexivity. Qed.

(** C4: the claim asks that an issue without a security level be
    reported with [No Askey-Secure], without an exception.  The code reads
    [issue.fields.security.name] without a test for [None], although it
    tests every other field that may be [None]: for every issue of a
    checked type without a security level no list is returned; the
    evaluation raises [AttributeError], or [ValueError] when a date text
    read before does not parse. *)
Theorem absent_security_no_list (i : issue) (w : World) :
  is_typed i = true →
  security i = None →
  (fst (check_issue i w) = Raise AttributeError ∧ dates_parse i = true) ∨
  (fst (check_issue i w) = Raise ValueError ∧ dates_parse i = false).
Proof.
  intros Ht%is_typed_elem_of Hs.
  pose proof (check_issue_outcome i w Ht) as H.
  destruct (fst (check_issue i w)) as [l|e].
  - destruct H as [_ [x Hx]]. congruence.
  - destruct H as [[-> Hp]|[-> [Hp _]]]; [by right | by left].
Qed.

(** The theorem on a story that passes every other check and has no
    security level. *)
Lemma absent_security_no_list_witness :
  fst (check_issue (with_security None clean_story) yearly_clock)
    = Raise AttributeError.
Proof.
  destruct (absent_security_no_list (with_security None clean_story)
              yearly_clock eq_refl eq_refl) as [[H _]|[_ H]];
    [exact H | discriminate H].
Defined.

(** What the security check does report: for every issue of a checked
    type whose security level is present with a name other than
    [Askey-Secure], and whose date texts read are fine, the evaluation
    returns a list and the list contains [No Askey-Secure]. *)
Lemma security_mismatch_reported (i : issue) (w : World) (sec : string) :
  is_typed i = true →
  security i = Some sec →
  sec ≠ "Askey-Secure" →
  dates_parse i = true →
  ∃ l, fst (check_issue i w) = Ok l ∧ "No Askey-Secure" ∈ l.
Proof.
  intros Ht%is_typed_elem_of Hs Hne Hp.
  destruct (check_issue_returns i w sec Ht Hp Hs) as [l Hl].
  exists l. split; [exact Hl |].
  destruct (check_issue_list i w l Ht Hl) as (dd & sec' & Hs' & -> & _).
  assert (sec' = sec) as -> by congruence.
  rewrite !elem_of_app. right. right. unfold static_codes.
  rewrite !elem_of_app, !elem_of_opt_code. do 4 right.
  split; [| reflexivity].
  apply negb_true_iff, String.eqb_neq. congruence.
Qed.

(** The lemma on a story with the security level [Public]. *)
Lemma security_mismatch_reported_witness :
  ∃ l, fst (check_issue (with_security (Some "Public") clean_story)
                        yearly_clock) = Ok l ∧
       "No Askey-Secure" ∈ l.
Proof.
  apply (security_mismatch_reported
           (with_security (Some "Public") clean_story) yearly_clock "Public");
    [reflexivity | reflexivity | discriminate | reflexivity].
Defined.

(* ================================================================== *)
(** ** The wall clock *)

(** C5, as stated: the evaluation would never read the wall clock, so
    that two evaluations of one record give one list.  An open issue due
    on 10 January 2024 is evaluated twice in a row: the first evaluation
    reads the clock (at midnight of the due day) and reports nothing, the
    second reads it again (a year later) and reports [Delay]. *)
Lemma clock_read_changes_result :
  let i := with_resolutiondate None
             (with_duedate (Some "2024-01-10") clean_story) in
  let first := check_issue i yearly_clock in
  let second := check_issue i (snd first) in
  fst first = Ok [] ∧ fst second = Ok ["Delay"] ∧
  fst first ≠ fst second ∧
  reads yearly_clock = 0%nat ∧ reads (snd first) = 1%nat.
Proof. repeat split. vm_compute. discriminate. Qed.

(** C5, amended: two evaluations of one record in which
    [datetime.now()] returns the same value have the same outcome (the
    same list in the same order, or the same exception); the value is read
    from the wall clock inside the check, at most once per evaluation, and
    is not an argument. *)
Theorem check_issue_same_now (i : issue) (w1 w2 : World) :
  next_now w1 = next_now w2 →
  fst (check_issue i w1) = fst (check_issue i w2) ∧
  (reads (snd (check_issue i w1)) ≤ S (reads w1))%nat.
Proof.
  intros Hn. split; [| apply check_issue_world].
  destruct (decide (issuetype_name i ∈ typed_names)) as [Ht|Ht].
  - rewrite (check_issue_typed i Ht), !common_problem_eq.
    pose proof (due_date_check_same_now i w1 w2 Hn) as H.
    destruct (due_date_check i [] w1) as [[dd1|e1] w1'],
             (due_date_check i [] w2) as [[dd2|e2] w2'];
      simpl in H; try discriminate H.
    + injection H as ->. by destruct (security i).
    + exact H.
  - by rewrite (check_issue_untyped i Ht).
Qed.

(** The theorem on two clocks that show the same time at different reads. *)
Lemma check_issue_same_now_witness :
  let i := with_resolutiondate None
             (with_duedate (Some "2024-01-10") clean_story) in
  let frozen := mk_world (fun _ => midnight 2024 1 10) 7 in
  fst (check_issue i yearly_clock) = fst (check_issue i frozen) ∧
  (reads (snd (check_issue i yearly_clock)) ≤ S (reads yearly_clock))%nat.
Proof.
  intros i frozen. apply (check_issue_same_now i yearly_clock frozen).
  reflexivity.
Defined.

(* ================================================================== *)
(** ** Story points and subtasks *)

(** The story-point rule on a list a story or a bug is given. *)
Lemma story_points_rule_returned (i : issue) (w : World) (l : list string) :
  is_story_or_bug i = true →
  fst (check_issue i w) = Ok l →
  (customfield_10408 i = None →
     "No StoryPoints" ∈ l ∧ "No SubTask" ∈ l) ∧
  (∀ n, customfield_10408 i = Some n → (3 < n)%Q →
        issuetype_subtask i = false →
     "No SubTask" ∈ l ∧ "No StoryPoints" ∉ l) ∧
  (∀ n, customfield_10408 i = Some n → (n == 3)%Q →
     "No SubTask" ∉ l).
Proof.
  intros Hsb Hl.
  pose proof (is_typed_elem_of i (story_or_bug_typed i Hsb)) as Ht.
  destruct (check_issue_list i w l Ht Hl) as (dd & sec & _ & -> & Hdd).
  destruct (story_or_bug_codes i Hsb) as (pre & -> & Hp1 & Hp2).
  assert (∀ x, x = "No StoryPoints" ∨ x = "No SubTask" →
               x ∉ (dd ++ static_codes i sec)%list) as Hrest.
  { intros x Hx. rewrite elem_of_app. intros [H|H].
    - destruct Hdd as [[_ ->]|[_ [b ->]]].
      + apply list_elem_of_singleton in H. destruct Hx; subst; discriminate.
      + apply elem_of_opt_code in H as [_ H]. destruct Hx; subst; discriminate.
    - apply elem_of_static_codes in H. destruct Hx; subst; not_listed H. }
  unfold story_point_check, append. split; [| split].
  - intros ->. simpl. rewrite !elem_of_app, !elem_of_cons. tauto.
  - intros n -> Hgt Hsub. rewrite Hsub.
    assert (gt3 n = true) as ->.
    { unfold gt3. apply negb_true_iff, not_true_is_false.
      intros Hle%Qle_bool_iff. by apply Qle_not_lt in Hle. }
    simpl. split.
    + rewrite !elem_of_app, !elem_of_cons. tauto.
    + intros H. apply elem_of_app in H as [H|H];
        [| by apply (Hrest "No StoryPoints"); [left |]].
      apply elem_of_app in H as [H|H]; [by apply Hp1 |].
      apply list_elem_of_singleton in H. discriminate H.
  - intros n -> Heq.
    assert (gt3 n = false) as ->.
    { unfold gt3. apply negb_false_iff, Qle_bool_iff. rewrite Heq.
      apply Qle_refl. }
    simpl. rewrite app_nil_r. intros H.
    apply elem_of_app in H as [H|H]; [by apply Hp2 |].
    by apply (Hrest "No SubTask"); [right |].
Qed.

(** C6: for every story or bug whose date texts read are fine and whose
    security level is there, the evaluation returns a list; and for every
    story or bug the evaluation gives either a list or one of two
    exceptions.  The list, without story points, contains
    [No StoryPoints] and [No SubTask]; with story points above 3 on an
    issue that is not a subtask it contains [No SubTask] and not
    [No StoryPoints]; with story points equal to 3 it does not contain
    [No SubTask], whatever the subtask flag.  The exception is
    [ValueError] for a date text that does not parse, or [AttributeError]
    for a missing security level. *)
Theorem story_points_rule (i : issue) (w : World) :
  is_story_or_bug i = true →
  (dates_parse i = true → is_Some (security i) →
     ∃ l, fst (check_issue i w) = Ok l) ∧
  match fst (check_issue i w) with
  | Ok l =>
      (customfield_10408 i = None →
         "No StoryPoints" ∈ l ∧ "No SubTask" ∈ l) ∧
      (∀ n, customfield_10408 i = Some n → (3 < n)%Q →
            issuetype_subtask i = false →
         "No SubTask" ∈ l ∧ "No StoryPoints" ∉ l) ∧
      (∀ n, customfield_10408 i = Some n → (n == 3)%Q →
         "No SubTask" ∉ l)
  | Raise e =>
      (e = ValueError ∧ dates_parse i = false) ∨
      (e = AttributeError ∧ dates_parse i = true ∧ security i = None)
  end.
Proof.
  intros Hsb.
  pose proof (is_typed_elem_of i (story_or_bug_typed i Hsb)) as Ht.
  pose proof (check_issue_outcome i w Ht) as Hout.
  pose proof (story_points_rule_returned i w) as Hrule.
  destruct (fst (check_issue i w)) as [l|e].
  - split; [intros _ _; by exists l |]. by apply Hrule.
  - split; [| exact Hout].
    intros Hp [sec Hs].
    destruct Hout as [[_ Hq]|[_ [_ Hq]]]; congruence.
Qed.

(** The theorem on a bug without story points: its dates are fine and
    its security level is there, a list is returned and it has both
    codes. *)
Lemma story_points_rule_witness :
  let i := with_type "Bug" (with_storypoints None (with_comments
             ["[analyse] [solution] [commitlink]";
              "[version] [steps] [result]"] clean_story)) in
  is_story_or_bug i = true ∧
  fst (check_issue i yearly_clock) = Ok ["No StoryPoints"; "No SubTask"] ∧
  (∃ l, fst (check_issue i yearly_clock) = Ok l) ∧
  ("No StoryPoints" ∈ ["No StoryPoints"; "No SubTask"]) ∧
  ("No SubTask" ∈ ["No StoryPoints"; "No SubTask"]).
Proof.
  intros i. split; [reflexivity |]. split; [reflexivity |].
  destruct (story_points_rule i yearly_clock eq_refl) as [Hret Hlist].
  split; [apply Hret; [reflexivity | by eexists] |].
  change (fst (check_issue i yearly_clock))
    with (@Ok (list string) ["No StoryPoints"; "No SubTask"]) in Hlist.
  exact (proj1 Hlist eq_refl).
Defined.

(* ================================================================== *)
(** ** No due date *)

(** C7: for every issue of a checked type without a due date, the clock
    is not read (the delay check is skipped), and the evaluation either
    returns a list, which contains [No DudeDate] and does not contain
    [Delay], or raises [AttributeError] because the issue has no security
    level. *)
Theorem no_duedate_no_delay (i : issue) (w : World) :
  is_typed i = true →
  duedate i = None →
  snd (check_issue i w) = w ∧
  match fst (check_issue i w) with
  | Ok l => "No DudeDate" ∈ l ∧ "Delay" ∉ l
  | Raise e => e = AttributeError ∧ security i = None
  end.
Proof.
  intros Ht%is_typed_elem_of Hd.
  assert (check_issue i w =
          match security i with
          | Some sec => (Ok (type_codes i ++ ["No DudeDate"] ++
                             static_codes i sec)%list, w)
          | None => (Raise AttributeError, w)
          end) as Heq.
  { rewrite (check_issue_typed i Ht), common_problem_eq.
    unfold due_date_check. by rewrite Hd. }
  rewrite Heq. destruct (security i) as [sec|]; [| done].
  cbv beta iota delta [fst snd]. split; [reflexivity |]. split.
  - apply elem_of_app. right. by left.
  - intros H. apply elem_of_app in H as [H|H].
    + apply elem_of_type_codes in H. not_listed H.
    + apply elem_of_cons in H as [H|H]; [discriminate H |].
      apply elem_of_static_codes in H. not_listed H.
Qed.

(** The theorem on AL-1. *)
Lemma no_duedate_no_delay_witness :
  snd (check_issue (AL_1 None) yearly_clock) = yearly_clock ∧
  match fst (check_issue (AL_1 None) yearly_clock) with
  | Ok l => "No DudeDate" ∈ l ∧ "Delay" ∉ l
  | Raise e => e = AttributeError ∧ security (AL_1 None) = None
  end.
Proof.
  apply (no_duedate_no_delay (AL_1 None) yearly_clock); reflexivity.
Defined.

(* ================================================================== *)
(** ** No code twice *)

(** C9: every list [check_issue] returns is duplicate-free, for every
    issue type and every value of the fields. *)
Theorem check_issue_NoDup (i : issue) (w : World) (l : list string) :
  fst (check_issue i w) = Ok l → NoDup l.
Proof.
  intros Hl.
  destruct (decide (issuetype_name i ∈ typed_names)) as [Ht|Ht].
  - destruct (check_issue_list i w l Ht Hl) as (dd & sec & _ & -> & Hdd).
    apply (sublist_NoDup _ all_codes); [apply all_codes_NoDup |].
    apply (sublist_app _ ["No Analyse"; "No Solution"; "No Code";
                          "No Verification"; "No StoryPoints"; "No SubTask"]);
      [apply type_codes_sublist |].
    apply (sublist_app _ ["No DudeDate"; "Delay"]);
      [| apply static_codes_sublist].
    destruct Hdd as [[_ ->]|[_ [b ->]]].
    + by apply sublist_skip, sublist_nil_l.
    + apply sublist_cons, opt_code_sublist.
  - rewrite (check_issue_untyped i Ht) in Hl. injection Hl as <-.
    apply NoDup_nil_2.
Qed.

(** The theorem on AL-1. *)
Lemma check_issue_NoDup_witness :
  fst (check_issue (AL_1 None) yearly_clock) =
    Ok ["No Code"; "No Verification"; "No SubTask"; "No DudeDate";
        "No FixVersions"; "No Component Chengdu"; "No Labels";
        "No Implementer"] ∧
  NoDup ["No Code"; "No Verification"; "No SubTask"; "No DudeDate";
         "No FixVersions"; "No Component Chengdu"; "No Labels";
         "No Implementer"].
Proof.
  split; [reflexivity |].
  apply (check_issue_NoDup (AL_1 None) yearly_clock). reflexivity.
Defined.

(* ================================================================== *)
(** ** Labels *)

(** C10: for every issue of a checked type and every list its
    evaluation returns: with labels present and empty the list does not
    contain [No Labels]; the list contains [No Labels] exactly when the
    labels are [None]. *)
Theorem empty_labels_not_reported (i : issue) (w : World) (l : list string) :
  is_typed i = true →
  fst (check_issue i w) = Ok l →
  (labels i = Some [] → "No Labels" ∉ l) ∧
  ("No Labels" ∈ l ↔ labels i = None).
Proof.
  intros Ht%is_typed_elem_of Hl.
  destruct (check_issue_list i w l Ht Hl) as (dd & sec & _ & -> & Hdd).
  assert ("No Labels" ∈ (type_codes i ++ dd ++ static_codes i sec)%list
          ↔ labels i = None) as Hiff.
  { rewrite !elem_of_app. split.
    - intros [H|[H|H]].
      + apply elem_of_type_codes in H. not_listed H.
      + destruct Hdd as [[_ ->]|[_ [b ->]]].
        * apply list_elem_of_singleton in H. discriminate H.
        * apply elem_of_opt_code in H as [_ H]. discriminate H.
      + unfold static_codes in H.
        rewrite !elem_of_app, !elem_of_opt_code in H.
        destruct H as [[_ H]|[[_ H]|[[H _]|[[_ H]|[_ H]]]]];
          try discriminate H.
        by apply bool_decide_eq_true in H.
    - intros Hn. right. right. unfold static_codes.
      rewrite !elem_of_app, !elem_of_opt_code. right. right. left.
      split; [by apply bool_decide_eq_true | reflexivity]. }
  split; [| exact Hiff].
  intros Hs Hin. apply Hiff in Hin. congruence.
Qed.

(** The theorem on a story whose labels are the empty list. *)
Lemma empty_labels_not_reported_witness :
  labels clean_story = Some [] ∧
  fst (check_issue clean_story yearly_clock) = Ok [] ∧
  ("No Labels" ∉ @nil string).
Proof.
  split; [reflexivity |]. split; [reflexivity |].
  apply (proj1 (empty_labels_not_reported clean_story yearly_clock []
                  eq_refl eq_refl)).
  reflexivity.
Defined.

(* ================================================================== *)
(** ** The index of a project *)

(** C8: the index [get_project_problem] builds over no issue is the
    empty mapping; an index it returns maps no key to the empty list, and
    an issue whose evaluation gave no code, and whose key no other issue
    of the project has, is not in it. *)
Theorem get_project_problem_no_empty (project : JiraProject) (w : World) :
  (issues project = [] → get_project_problem project w = (Ok ∅, w)) ∧
  (∀ d w', get_project_problem project w = (Ok d, w') →
     (∀ k l, d !! k = Some l → l ≠ []) ∧
     (∀ pre i post d1 w1 w2,
        issues project = (pre ++ i :: post)%list →
        project_loop pre ∅ w = (Ok d1, w1) →
        check_issue i w1 = (Ok [], w2) →
        key i ∉ key <$> (pre ++ post)%list →
        d !! key i = None)).
Proof.
  unfold get_project_problem. split.
  - by intros ->.
  - intros d w' Hrun. split.
    + apply (project_loop_nonempty _ _ _ _ _ Hrun).
      intros k v. by rewrite lookup_empty.
    + intros pre i post d1 w1 w2 Hl Hpre Hi Hk.
      rewrite Hl in Hrun.
      apply project_loop_app in Hrun as (d1' & w1' & Hpre' & Hpost).
      rewrite Hpre in Hpre'. injection Hpre' as <- <-.
      rewrite project_loop_cons, Hi in Hpost. simpl in Hpost.
      rewrite fmap_app, elem_of_app in Hk.
      rewrite (project_loop_other_key _ _ _ _ _ _ Hpost) by tauto.
      rewrite (project_loop_other_key _ _ _ _ _ _ Hpre) by tauto.
      apply lookup_empty.
Qed.

(** The theorem on the project [Alpha]: AL-1 is in the index, AL-2 is not. *)
Lemma get_project_problem_no_empty_witness :
  let d : gmap string (list string) :=
    <["AL-1" := ["No Code"; "No Verification"; "No SubTask"; "No DudeDate";
                 "No FixVersions"; "No Component Chengdu"; "No Labels";
                 "No Implementer"]]> ∅ in
  get_project_problem Alpha yearly_clock = (Ok d, yearly_clock) ∧
  (∀ k l, d !! k = Some l → l ≠ []) ∧
  d !! "AL-2" = None.
Proof.
  intros d.
  assert (get_project_problem Alpha yearly_clock = (Ok d, yearly_clock))
    as Hrun by reflexivity.
  split; [exact Hrun |].
  destruct (proj2 (get_project_problem_no_empty Alpha yearly_clock) _ _ Hrun)
    as [Hne Habs].
  split; [exact Hne |].
  apply (Habs [] clean_story [AL_1 None] ∅ yearly_clock yearly_clock);
    try reflexivity.
  intros H. apply list_elem_of_singleton in H. discriminate H.
Defined.

(* ================================================================== *)
(** ** The order of the codes *)

(** Every list [check_issue] returns lists its codes in one fixed order:
    the codes of the type before the common codes, each group in the
    order in which the source appends them. *)
Theorem check_issue_order (i : issue) (w : World) (l : list string) :
  fst (check_issue i w) = Ok l → l `sublist_of` all_codes.
Proof.
  intros Hl.
  destruct (decide (issuetype_name i ∈ typed_names)) as [Ht|Ht].
  - destruct (check_issue_list i w l Ht Hl) as (dd & sec & _ & -> & Hdd).
    apply (sublist_app _ ["No Analyse"; "No Solution"; "No Code";
                          "No Verification"; "No StoryPoints"; "No SubTask"]);
      [apply type_codes_sublist |].
    apply (sublist_app _ ["No DudeDate"; "Delay"]);
      [| apply static_codes_sublist].
    destruct Hdd as [[_ ->]|[_ [b ->]]].
    + by apply sublist_skip, sublist_nil_l.
    + apply sublist_cons, opt_code_sublist.
  - rewrite (check_issue_untyped i Ht) in Hl. injection Hl as <-.
    apply sublist_nil_l.
Qed.

(** The theorem on a story with the security level [Public]. *)
Lemma check_issue_order_witness :
  fst (check_issue (with_security (Some "Public") clean_story) yearly_clock)
    = Ok ["No Askey-Secure"] ∧
  ["No Askey-Secure"] `sublist_of` all_codes.
Proof.
  split; [reflexivity |].
  apply (check_issue_order (with_security (Some "Public") clean_story)
           yearly_clock).
  reflexivity.
Defined.

(* ================================================================== *)
(** ** When an evaluation raises *)

(** For an issue of a checked type, [check_issue] returns a list exactly
    when the date texts it reads are fine and the security level is
    there; it raises [ValueError] exactly when a date text it reads does
    not parse, and [AttributeError] exactly when those texts are fine and
    the security level is missing (a date that does not parse is met
    before the missing security level).  The texts read are the due date,
    and the resolution date when there is a due date: without a due date
    no [ValueError] is raised, whatever the resolution date holds. *)
Theorem check_issue_exceptions (i : issue) (w : World) :
  is_typed i = true →
  ((∃ l, fst (check_issue i w) = Ok l) ↔
     dates_parse i = true ∧ is_Some (security i)) ∧
  (fst (check_issue i w) = Raise ValueError ↔ dates_parse i = false) ∧
  (fst (check_issue i w) = Raise AttributeError ↔
     dates_parse i = true ∧ security i = None) ∧
  (duedate i = None →
     dates_parse i = true ∧ fst (check_issue i w) ≠ Raise ValueError) ∧
  (∀ d, duedate i = Some d →
     (dates_parse i = true ↔
        (∃ due, strptime_Ymd d = Ok due) ∧
        (∀ r, resolutiondate i = Some r → ∃ res, strptime_iso r = Ok res))).
Proof.
  intros Ht%is_typed_elem_of.
  assert (((∃ l, fst (check_issue i w) = Ok l) ↔
             dates_parse i = true ∧ is_Some (security i)) ∧
          (fst (check_issue i w) = Raise ValueError ↔ dates_parse i = false) ∧
          (fst (check_issue i w) = Raise AttributeError ↔
             dates_parse i = true ∧ security i = None)) as (H1 & H2 & H3).
  { rewrite (check_issue_typed i Ht), common_problem_eq.
    pose proof (dates_parse_outcome i w) as Hp.
    destruct (due_date_check i [] w) as [[dd|e] w1];
      cbv beta iota delta [fst] in Hp |- *.
    - rewrite Hp. destruct (security i) as [sec|]; cbv beta iota delta [fst].
      + split; [| split]; split; try discriminate.
        * intros _. split; [reflexivity | by eexists].
        * intros _. by eexists.
        * intros [_ H]. discriminate H.
      + split; [| split]; split; try discriminate.
        * intros [l Hl]. discriminate Hl.
        * intros [_ [x Hx]]. discriminate Hx.
        * done.
        * done.
    - destruct Hp as [-> Hp]. rewrite Hp.
      split; [| split]; split; try discriminate; try done.
      + intros [l Hl]. discriminate Hl.
      + intros [H _]. discriminate H.
      + intros [H _]. discriminate H. }
  split; [exact H1 |]. split; [exact H2 |]. split; [exact H3 |]. split.
  - intros Hd.
    assert (dates_parse i = true) as Hp by (unfold dates_parse; by rewrite Hd).
    split; [exact Hp |]. rewrite H2, Hp. discriminate.
  - intros d Hd. unfold dates_parse. rewrite Hd.
    destruct (strptime_Ymd d) as [due|e].
    + destruct (resolutiondate i) as [r|].
      * destruct (strptime_iso r) as [res|e] eqn:Hq; split.
        -- intros _. split; [by eexists |]. intros r' [= <-]. by eexists.
        -- done.
        -- discriminate.
        -- intros [_ H]. destruct (H r eq_refl) as [res Hres]. congruence.
      * split; [| done]. intros _. split; [by eexists |]. discriminate.
    + split; [discriminate |]. intros [[due Hdue] _]. discriminate.
Qed.

(** The theorem on a review without due date whose resolution date is
    no date at all: the resolution date is not read, a list is
    returned. *)
Lemma check_issue_exceptions_witness :
  let i := with_type "Review"
             (with_resolutiondate (Some "garbage")
                (with_duedate None clean_story)) in
  duedate i = None ∧ resolutiondate i = Some "garbage" ∧
  fst (check_issue i yearly_clock) = Ok ["No DudeDate"] ∧
  dates_parse i = true ∧
  fst (check_issue i yearly_clock) ≠ Raise ValueError.
Proof.
  intros i. split; [reflexivity |]. split; [reflexivity |].
  split; [reflexivity |].
  apply (proj1 (proj2 (proj2 (proj2
           (check_issue_exceptions i yearly_clock eq_refl))))).
  reflexivity.
Defined.

(* ================================================================== *)
(** ** Delay *)

Lemma delay_elem_of (i : issue) (b : bool) (sec : string) :
  "Delay" ∈ (type_codes i ++ opt_code b "Delay" ++ static_codes i sec)%list
  ↔ b = true.
Proof.
  rewrite !elem_of_app, elem_of_opt_code. split.
  - intros [H|[[H _]|H]]; [| exact H |].
    + apply elem_of_type_codes in H. not_listed H.
    + apply elem_of_static_codes in H. not_listed H.
  - intros ->. right. left. by split.
Qed.

(** [check_issue] on an unresolved issue whose due date parses. *)
Lemma check_issue_open (i : issue) (w : World) (d : string) (due : datetime) :
  issuetype_name i ∈ typed_names →
  duedate i = Some d → strptime_Ymd d = Ok due → resolutiondate i = None →
  check_issue i w =
  match security i with
  | Some sec =>
      (Ok (type_codes i ++ opt_code (datetime_gt (next_now w) due) "Delay" ++
           static_codes i sec)%list,
       mk_world (clock w) (S (reads w)))
  | None => (Raise AttributeError, mk_world (clock w) (S (reads w)))
  end.
Proof.
  intros Ht Hd Hp Hr. rewrite (check_issue_typed i Ht), common_problem_eq.
  destruct (due_date_check_outcome i w) as
    [Hd' | d' Hd' Hq | d' due' Hd' Hq Hr' | d' due' r Hd' Hq Hr' Hq'
     | d' due' r res Hd' Hq Hr' Hq']; try congruence.
  assert (due' = due) as -> by congruence. reflexivity.
Qed.

(** [check_issue] on a resolved issue whose dates parse. *)
Lemma check_issue_resolved (i : issue) (w : World) (d r : string)
    (due res : datetime) :
  issuetype_name i ∈ typed_names →
  duedate i = Some d → strptime_Ymd d = Ok due →
  resolutiondate i = Some r → strptime_iso r = Ok res →
  check_issue i w =
  match security i with
  | Some sec =>
      (Ok (type_codes i ++
           opt_code (date_gt (dt_date res) (dt_date due)) "Delay" ++
           static_codes i sec)%list, w)
  | None => (Raise AttributeError, w)
  end.
Proof.
  intros Ht Hd Hp Hr Hq. rewrite (check_issue_typed i Ht), common_problem_eq.
  destruct (due_date_check_outcome i w) as
    [Hd' | d' Hd' Hq1 | d' due' Hd' Hq1 Hr' | d' due' r' Hd' Hq1 Hr' Hq'
     | d' due' r' res' Hd' Hq1 Hr' Hq']; try congruence.
  assert (due' = due) as -> by congruence.
  assert (res' = res) as -> by congruence. reflexivity.
Qed.

(** A parsed due date is the midnight that starts a day of the
    calendar. *)
Lemma strptime_Ymd_midnight (s : string) (due : datetime) :
  strptime_Ymd s = Ok due →
  due = midnight (year (dt_date due)) (month (dt_date due)) (day (dt_date due)) ∧
  check_date_fields (year (dt_date due)) (month (dt_date due))
                    (day (dt_date due)) = true.
Proof.
  unfold strptime_Ymd, result_bind.
  destruct (full_match re_Ymd s) as [[[y m] d]|e]; [| discriminate].
  destruct (check_date_fields y m d) eqn:Hc; [| discriminate].
  intros [= <-]. by split.
Qed.

Lemma date_eqb_refl (a : date) : date_eqb a a = true.
Proof. unfold date_eqb. by rewrite !Z.eqb_refl. Qed.

Lemma date_gt_irrefl (a : date) : date_gt a a = false.
Proof.
  unfold date_gt. rewrite !Z.compare_refl. apply Z.ltb_irrefl.
Qed.

(** [date_gt] is the strict order of [(year, month, day)]. *)
Lemma date_gt_spec (a b : date) :
  date_gt a b = true ↔
  year b < year a ∨
  (year b = year a ∧ (month b < month a ∨
                      (month b = month a ∧ day b < day a))).
Proof.
  unfold date_gt.
  destruct (Z.compare_spec (year a) (year b)) as [Hy|Hy|Hy];
    [| split; [discriminate | lia] | split; [lia | reflexivity]].
  destruct (Z.compare_spec (month a) (month b)) as [Hm|Hm|Hm];
    [| split; [discriminate | lia] | split; [lia | reflexivity]].
  rewrite Z.ltb_lt. lia.
Qed.

(** An unresolved issue of a checked type whose due date parses: the
    evaluation reads the clock once, and a returned list contains [Delay]
    exactly when the time read is later than midnight at the start of the
    due day.  So an issue is late from the first microsecond of its due
    day, and not late at that midnight itself. *)
Theorem delay_open_issue (i : issue) (w : World) (d : string)
    (due : datetime) (l : list string) :
  is_typed i = true →
  duedate i = Some d → strptime_Ymd d = Ok due → resolutiondate i = None →
  fst (check_issue i w) = Ok l →
  reads (snd (check_issue i w)) = S (reads w) ∧
  ("Delay" ∈ l ↔ datetime_gt (next_now w) due = true) ∧
  (dt_date (next_now w) = dt_date due →
     ("Delay" ∈ l ↔ 0 < time_of_day (next_now w))).
Proof.
  intros Ht%is_typed_elem_of Hd Hp Hr.
  rewrite (check_issue_open i w d due Ht Hd Hp Hr).
  destruct (security i) as [sec|]; [| discriminate].
  cbv beta iota delta [fst snd]. intros [= <-].
  split; [reflexivity |]. rewrite delay_elem_of. split; [reflexivity |].
  intros Hsame. unfold datetime_gt.
  rewrite Hsame, date_gt_irrefl, date_eqb_refl. simpl.
  destruct (strptime_Ymd_midnight d due Hp) as [-> _].
  unfold time_of_day at 1. simpl. apply Z.ltb_lt.
Qed.

(** The theorem on an issue due on 10 January 2024, at one microsecond
    past midnight of that day. *)
Lemma delay_open_issue_witness :
  let i := with_resolutiondate None
             (with_duedate (Some "2024-01-10") clean_story) in
  let w := mk_world (fun _ => mk_datetime (mk_date 2024 1 10) 0 0 0 1) 0 in
  fst (check_issue i w) = Ok ["Delay"] ∧
  ("Delay" ∈ ["Delay"] ↔ 0 < time_of_day (next_now w)).
Proof.
  intros i w. split; [reflexivity |].
  apply (proj2 (proj2 (delay_open_issue i w "2024-01-10"
                         (midnight 2024 1 10) ["Delay"]
                         eq_refl eq_refl eq_refl eq_refl eq_refl))).
  reflexivity.
Defined.

(** A resolved issue of a checked type whose dates parse: the clock is
    not read, and a returned list contains [Delay] exactly when the
    calendar day written in the resolution date is after the due day.
    The time of day and the zone offset of the resolution date play no
    part: an issue resolved at any time of its due day is not late. *)
Theorem delay_resolved_issue (i : issue) (w : World) (d r : string)
    (due res : datetime) (l : list string) :
  is_typed i = true →
  duedate i = Some d → strptime_Ymd d = Ok due →
  resolutiondate i = Some r → strptime_iso r = Ok res →
  fst (check_issue i w) = Ok l →
  snd (check_issue i w) = w ∧
  ("Delay" ∈ l ↔ date_gt (dt_date res) (dt_date due) = true) ∧
  (dt_date res = dt_date due → "Delay" ∉ l).
Proof.
  intros Ht%is_typed_elem_of Hd Hp Hr Hq.
  rewrite (check_issue_resolved i w d r due res Ht Hd Hp Hr Hq).
  destruct (security i) as [sec|]; [| discriminate].
  cbv beta iota delta [fst snd]. intros [= <-].
  split; [reflexivity |]. rewrite delay_elem_of. split; [reflexivity |].
  intros ->. rewrite date_gt_irrefl. discriminate.
Qed.

(** The theorem on a story due on 1 March 2024 and resolved that day at
    23:59:59 in a zone twelve hours behind. *)
Lemma delay_resolved_issue_witness :
  let i := with_resolutiondate (Some "2024-03-01T23:59:59.999-1200")
                               clean_story in
  fst (check_issue i yearly_clock) = Ok [] ∧ ("Delay" ∉ @nil string).
Proof.
  intros i. split; [reflexivity |].
  apply (proj2 (proj2 (delay_resolved_issue i yearly_clock "2024-03-01"
                         "2024-03-01T23:59:59.999-1200"
                         (midnight 2024 3 1)
                         (mk_datetime (mk_date 2024 3 1) 23 59 59 999000) []
                         eq_refl eq_refl eq_refl eq_refl eq_refl eq_refl))).
  reflexivity.
Defined.

(* ================================================================== *)
(** ** Which type reports which code *)

Lemma type_codes_review (i : issue) :
  issuetype_name i = "Review" → type_codes i = review_codes i.
Proof.
  intros Hn. unfold type_codes. rewrite Hn. reflexivity.
Qed.

Lemma type_codes_story (i : issue) :
  str_in (issuetype_name i) story_names = true → type_codes i = story_codes i.
Proof. intros Hn. unfold type_codes. by rewrite Hn. Qed.

(** A code that is in neither the due-date outcome nor the common
    codes is in the list exactly when the type appends it. *)
Lemma type_code_elem_of (i : issue) (dd : list string) (sec x : string) :
  x ∈ ["No Analyse"; "No Solution"; "No Code"; "No Verification";
       "No StoryPoints"; "No SubTask"] →
  (duedate i = None ∧ dd = ["No DudeDate"]) ∨
  (duedate i ≠ None ∧ ∃ b, dd = opt_code b "Delay") →
  x ∈ (type_codes i ++ dd ++ static_codes i sec)%list ↔ x ∈ type_codes i.
Proof.
  intros Hx Hdd. rewrite !elem_of_app. split; [| by left].
  intros [H|[H|H]]; [exact H | |].
  - exfalso. destruct Hdd as [[_ ->]|[_ [b ->]]].
    + apply list_elem_of_singleton in H. subst x. not_listed Hx.
    + apply elem_of_opt_code in H as [_ ->]. not_listed Hx.
  - exfalso. apply elem_of_static_codes in H.
    rewrite !elem_of_cons, elem_of_nil in Hx.
    destruct Hx as [->|[->|[->|[->|[->|[->|[]]]]]]]; not_listed H.
Qed.

(** A review is never reported for a missing marker or a missing
    subtask, whatever its comments and story points: every list returned
    for the type name [Review] is free of [No Analyse], [No Solution],
    [No Code], [No Verification] and [No SubTask]. *)
Theorem review_skips_comment_checks (i : issue) (w : World) (l : list string) :
  issuetype_name i = "Review" →
  fst (check_issue i w) = Ok l →
  ∀ x, x ∈ ["No Analyse"; "No Solution"; "No Code"; "No Verification";
            "No SubTask"] → x ∉ l.
Proof.
  intros Hn Hl x Hx.
  assert (issuetype_name i ∈ typed_names) as Ht.
  { rewrite Hn. unfold typed_names. rewrite !elem_of_cons. tauto. }
  destruct (check_issue_list i w l Ht Hl) as (dd & sec & _ & -> & Hdd).
  rewrite type_code_elem_of; [| | exact Hdd].
  - rewrite (type_codes_review i Hn). unfold review_codes.
    rewrite elem_of_opt_code. intros [_ ->]. not_listed Hx.
  - rewrite !elem_of_cons, elem_of_nil in Hx. rewrite !elem_of_cons. tauto.
Qed.

(** The theorem on a review without comments and without story
    points. *)
Lemma review_skips_comment_checks_witness :
  let i := with_storypoints None (with_type "Review" (AL_1 None)) in
  fst (check_issue i yearly_clock) =
    Ok ["No StoryPoints"; "No DudeDate"; "No FixVersions";
        "No Component Chengdu"; "No Labels"; "No Implementer"] ∧
  ("No SubTask" ∉ ["No StoryPoints"; "No DudeDate"; "No FixVersions";
                   "No Component Chengdu"; "No Labels"; "No Implementer"]).
Proof.
  intros i. split; [reflexivity |].
  apply (review_skips_comment_checks i yearly_clock _ eq_refl eq_refl).
  rewrite !elem_of_cons. tauto.
Defined.

(** A story is never reported for the two markers only a bug needs:
    every list returned for the type names [Story] and [故事] is free of
    [No Analyse] and [No Solution]. *)
Theorem story_skips_bug_markers (i : issue) (w : World) (l : list string) :
  str_in (issuetype_name i) story_names = true →
  fst (check_issue i w) = Ok l →
  ("No Analyse" ∉ l) ∧ ("No Solution" ∉ l).
Proof.
  intros Hn Hl.
  assert (issuetype_name i ∈ typed_names) as Ht.
  { pose proof (proj1 (str_in_elem_of _ _) Hn) as Hin.
    unfold story_names in Hin. unfold typed_names.
    rewrite !elem_of_cons, elem_of_nil in Hin. rewrite !elem_of_cons.
    destruct Hin as [->|[->|[]]]; tauto. }
  destruct (check_issue_list i w l Ht Hl) as (dd & sec & _ & -> & Hdd).
  rewrite !type_code_elem_of, (type_codes_story i Hn);
    [| rewrite !elem_of_cons; tauto | exact Hdd
     | rewrite !elem_of_cons; tauto | exact Hdd].
  pose proof (story_point_check_sublist i) as Hsp.
  unfold story_codes. cbv zeta. rewrite !elem_of_app, !elem_of_opt_code.
  split; intros [[_ H]|[[_ H]|H]]; try discriminate H;
    apply (elem_of_sublist _ _ _ H) in Hsp; not_listed Hsp.
Qed.

(** The theorem on AL-1. *)
Lemma story_skips_bug_markers_witness :
  fst (check_issue (AL_1 None) yearly_clock) =
    Ok ["No Code"; "No Verification"; "No SubTask"; "No DudeDate";
        "No FixVersions"; "No Component Chengdu"; "No Labels";
        "No Implementer"] ∧
  ("No Analyse" ∉ ["No Code"; "No Verification"; "No SubTask"; "No DudeDate";
                   "No FixVersions"; "No Component Chengdu"; "No Labels";
                   "No Implementer"]).
Proof.
  split; [reflexivity |].
  apply (story_skips_bug_markers (AL_1 None) yearly_clock _ eq_refl eq_refl).
Defined.

(* ================================================================== *)
(** ** The story-point codes, exactly *)

Lemma gt3_spec (n : Q) : gt3 n = true ↔ (3 < n)%Q.
Proof.
  unfold gt3. rewrite negb_true_iff. split.
  - intros H. apply Qnot_le_lt. intros Hle%Qle_bool_iff. congruence.
  - intros H. apply not_true_is_false. intros Hle%Qle_bool_iff.
    by apply Qle_not_lt in Hle.
Qed.

(** For every issue of a checked type and every list returned:
    [No StoryPoints] is in the list exactly when the story points are
    missing; for a story or a bug [No SubTask] is in the list exactly when
    the story points are missing, or are above 3 on an issue that is not a
    subtask.  So a subtask with story points is never asked for subtasks,
    and neither is an issue of 3 points or fewer. *)
Theorem story_point_codes_iff (i : issue) (w : World) (l : list string) :
  is_typed i = true →
  fst (check_issue i w) = Ok l →
  ("No StoryPoints" ∈ l ↔ customfield_10408 i = None) ∧
  (is_story_or_bug i = true →
     ("No SubTask" ∈ l ↔
        customfield_10408 i = None ∨
        ∃ n, customfield_10408 i = Some n ∧ (3 < n)%Q ∧
             issuetype_subtask i = false)).
Proof.
  intros Hty Hl. pose proof (is_typed_elem_of i Hty) as Ht.
  destruct (check_issue_list i w l Ht Hl) as (dd & sec & _ & -> & Hdd).
  rewrite !type_code_elem_of;
    [| rewrite !elem_of_cons; tauto | exact Hdd
     | rewrite !elem_of_cons; tauto | exact Hdd].
  split.
  - destruct (is_story_or_bug i) eqn:Hsb.
    + destruct (story_or_bug_codes i Hsb) as (pre & -> & Hp1 & _).
      rewrite elem_of_app. unfold story_point_check, append.
      destruct (customfield_10408 i) as [n|]; simpl.
      * split; [| discriminate]. intros [H|H]; [by apply Hp1 in H |].
        destruct (gt3 n && negb (issuetype_subtask i)); simpl in H;
          not_listed H.
      * split; [reflexivity |]. intros _. right. rewrite !elem_of_cons. tauto.
    + assert (type_codes i = review_codes i) as ->.
      { unfold type_codes. unfold is_story_or_bug, str_in in Hsb.
        rewrite existsb_app in Hsb. apply orb_false_elim in Hsb as [H1 H2].
        unfold str_in. by rewrite H1, H2. }
      unfold review_codes. rewrite elem_of_opt_code, bool_decide_eq_true.
      tauto.
  - intros Hsb. destruct (story_or_bug_codes i Hsb) as (pre & -> & _ & Hp2).
    rewrite elem_of_app. unfold story_point_check, append.
    destruct (customfield_10408 i) as [n|]; simpl.
    + destruct (issuetype_subtask i); simpl.
      * rewrite andb_false_r. simpl. split.
        -- intros [H|H]; [by apply Hp2 in H | not_listed H].
        -- intros [H|(n' & _ & _ & H)]; discriminate H.
      * rewrite andb_true_r. destruct (gt3 n) eqn:Hg; simpl.
        -- split; [| intros _; right; by apply list_elem_of_singleton].
           intros _. right. exists n. apply gt3_spec in Hg. by repeat split.
        -- split.
           ++ intros [H|H]; [by apply Hp2 in H | not_listed H].
           ++ intros [H|(n' & [= <-] & Hn & _)]; [discriminate H |].
              apply gt3_spec in Hn. congruence.
    + split; [by left |]. intros _. right. rewrite !elem_of_cons. tauto.
Qed.

(** The theorem on a subtask with 8 story points: no subtask is asked
    of it. *)
Lemma story_point_codes_iff_witness :
  let i := mk_issue "AL-3" "Bug" true None None ["1.0"] ["chengdu"] (Some [])
                    (Some "dev") (Some "Askey-Secure") (Some 8%Q)
                    ["[analyse] [solution] [commitlink]";
                     "[version] [steps] [result]"] in
  fst (check_issue i yearly_clock) = Ok ["No DudeDate"] ∧
  ("No SubTask" ∈ ["No DudeDate"] ↔
     customfield_10408 i = None ∨
     ∃ n, customfield_10408 i = Some n ∧ (3 < n)%Q ∧
          issuetype_subtask i = false).
Proof.
  intros i. split; [reflexivity |].
  apply (proj2 (story_point_codes_iff i yearly_clock ["No DudeDate"]
                  eq_refl eq_refl)).
  reflexivity.
Defined.

(* ================================================================== *)
(** ** The common codes, exactly *)

(** For every issue of a checked type and every list returned:
    [No FixVersions] is in it exactly when there is no fix version,
    [No Component Chengdu] exactly when no component is named [chengdu]
    (to the letter, case included), [No Implementer] exactly when the
    implementer field is [None], and [No Askey-Secure] exactly when the
    security level has another name than [Askey-Secure]. *)
Theorem common_codes_iff (i : issue) (w : World) (l : list string)
    (sec : string) :
  is_typed i = true →
  security i = Some sec →
  fst (check_issue i w) = Ok l →
  ("No FixVersions" ∈ l ↔ fixVersions i = []) ∧
  ("No Component Chengdu" ∈ l ↔ "chengdu" ∉ components i) ∧
  ("No Implementer" ∈ l ↔ customfield_11807 i = None) ∧
  ("No Askey-Secure" ∈ l ↔ sec ≠ "Askey-Secure").
Proof.
  intros Ht%is_typed_elem_of Hs Hl.
  destruct (check_issue_list i w l Ht Hl) as (dd & sec' & Hs' & -> & Hdd).
  assert (sec' = sec) as -> by congruence.
  assert (∀ x, x ∈ ["No FixVersions"; "No Component Chengdu";
                    "No Implementer"; "No Askey-Secure"] →
               x ∈ (type_codes i ++ dd ++ static_codes i sec)%list ↔
               x ∈ static_codes i sec) as Hst.
  { intros x Hx. rewrite !elem_of_app. split; [| by (right; right)].
    intros [H|[H|H]]; [| | exact H]; exfalso.
    - apply elem_of_type_codes in H.
      rewrite !elem_of_cons, elem_of_nil in Hx.
      destruct Hx as [->|[->|[->|[->|[]]]]]; not_listed H.
    - destruct Hdd as [[_ ->]|[_ [b ->]]].
      + apply list_elem_of_singleton in H. subst x. not_listed Hx.
      + apply elem_of_opt_code in H as [_ ->]. not_listed Hx. }
  rewrite !Hst by (rewrite !elem_of_cons; tauto).
  unfold static_codes. rewrite !elem_of_app, !elem_of_opt_code.
  split; [| split; [| split]].
  - split.
    + intros [[H _]|[[_ H]|[[_ H]|[[_ H]|[_ H]]]]]; try discriminate H.
      apply Nat.eqb_eq in H. by destruct (fixVersions i).
    + intros ->. by left.
  - split.
    + intros [[_ H]|[[H _]|[[_ H]|[[_ H]|[_ H]]]]]; try discriminate H.
      apply negb_true_iff in H. intros Hin%str_in_elem_of. congruence.
    + intros Hn. right. left. split; [| reflexivity].
      apply negb_true_iff, not_true_is_false. by intros Hin%str_in_elem_of.
  - split.
    + intros [[_ H]|[[_ H]|[[_ H]|[[H _]|[_ H]]]]]; try discriminate H.
      by apply bool_decide_eq_true in H.
    + intros Hn. do 3 right. left. split; [| reflexivity].
      by apply bool_decide_eq_true.
  - split.
    + intros [[_ H]|[[_ H]|[[_ H]|[[_ H]|[H _]]]]]; try discriminate H.
      apply negb_true_iff, String.eqb_neq in H. congruence.
    + intros Hn. do 4 right. split; [| reflexivity].
      apply negb_true_iff, String.eqb_neq. congruence.
Qed.

(** The theorem on a story whose only component is [Chengdu], with a
    capital. *)
Lemma common_codes_iff_witness :
  let i := mk_issue "AL-4" "Review" false None None ["1.0"] ["Chengdu"]
                    (Some []) (Some "dev") (Some "Askey-Secure") (Some 1%Q)
                    [] in
  fst (check_issue i yearly_clock) = Ok ["No DudeDate"; "No Component Chengdu"] ∧
  ("No Component Chengdu" ∈ ["No DudeDate"; "No Component Chengdu"] ↔
   "chengdu" ∉ components i).
Proof.
  intros i. split; [reflexivity |].
  apply (proj1 (proj2 (common_codes_iff i yearly_clock _ "Askey-Secure"
                         eq_refl eq_refl eq_refl))).
Defined.

(* ================================================================== *)
(** ** The loop over a project *)

(** The world after an evaluation that returned a list. *)
Lemma check_issue_ok_world (i : issue) (w w' : World) (l : list string) :
  check_issue i w = (Ok l, w') →
  w' = if reads_clock i then mk_world (clock w) (S (reads w)) else w.
Proof.
  unfold reads_clock.
  destruct (is_typed i) eqn:Hty.
  - pose proof (is_typed_elem_of i Hty) as Ht.
    rewrite (check_issue_typed i Ht), common_problem_eq.
    destruct (due_date_check_outcome i w) as
      [Hd | d Hd Hq | d due Hd Hq Hr | d due r Hd Hq Hr Hq'
       | d due r res Hd Hq Hr Hq']; try discriminate;
      (destruct (security i); [| discriminate]); intros [= _ <-];
      rewrite Hd; try rewrite Hr; reflexivity.
  - pose proof (is_typed_false i Hty) as Ht.
    rewrite (check_issue_untyped i Ht). by intros [= _ <-].
Qed.

(** An exception in one issue ends the loop: when the issues before
    [i] evaluate and [i] raises, [get_project_problem] raises the same
    exception and returns no index; the issues after [i] are not
    evaluated (the clock is as [i] left it). *)
Theorem get_project_problem_raises (project : JiraProject) (w w1 w2 : World)
    (pre post : list issue) (i : issue) (d1 : gmap string (list string))
    (e : exn) :
  issues project = (pre ++ i :: post)%list →
  project_loop pre ∅ w = (Ok d1, w1) →
  check_issue i w1 = (Raise e, w2) →
  get_project_problem project w = (Raise e, w2).
Proof.
  unfold get_project_problem. intros -> Hpre Hi.
  revert w Hpre. generalize (∅ : gmap string (list string)).
  induction pre as [|j rest IH]; intros d w Hpre.
  - injection Hpre as <- <-. simpl app. by rewrite project_loop_cons, Hi.
  - rewrite <- app_comm_cons, project_loop_cons.
    rewrite project_loop_cons in Hpre.
    destruct (check_issue j w) as [[u|e'] w']; [| discriminate].
    by apply IH.
Qed.

(** The theorem on a project whose second issue has no security
    level: the first issue is fine, the third is never looked at. *)
Lemma get_project_problem_raises_witness :
  get_project_problem
    (mk_project "Alpha" "AL"
       [clean_story; with_security None clean_story; AL_1 None]
       "manager" "13800000000") yearly_clock
  = (Raise AttributeError, yearly_clock).
Proof.
  apply (get_project_problem_raises _ yearly_clock yearly_clock yearly_clock
           [clean_story] [AL_1 None] (with_security None clean_story) ∅);
    reflexivity.
Defined.

(** An issue with at least one code is in the index under its key with
    exactly its list, unless a later issue of the same key replaces it:
    when the issues before [i] evaluate, [i] gives the non-empty list [l]
    and no later issue has the key of [i], a returned index maps the key
    of [i] to [l]. *)
Theorem get_project_problem_present (project : JiraProject) (w w1 w2 w' : World)
    (pre post : list issue) (i : issue) (d1 d : gmap string (list string))
    (l : list string) :
  issues project = (pre ++ i :: post)%list →
  project_loop pre ∅ w = (Ok d1, w1) →
  check_issue i w1 = (Ok l, w2) →
  l ≠ [] →
  key i ∉ key <$> post →
  get_project_problem project w = (Ok d, w') →
  d !! key i = Some l.
Proof.
  unfold get_project_problem. intros -> Hpre Hi Hl Hk Hrun.
  apply project_loop_app in Hrun as (d1' & w1' & Hpre' & Hpost).
  rewrite Hpre in Hpre'. injection Hpre' as <- <-.
  rewrite project_loop_cons, Hi in Hpost.
  rewrite (project_loop_other_key _ _ _ _ _ _ Hpost Hk).
  destruct l as [|c l]; [done |]. simpl. apply lookup_insert_eq.
Qed.

(** The theorem on the project [Alpha]: AL-1 is in the index with its
    eight codes. *)
Lemma get_project_problem_present_witness :
  ∃ d w', get_project_problem Alpha yearly_clock = (Ok d, w') ∧
          d !! "AL-1" =
          Some ["No Code"; "No Verification"; "No SubTask"; "No DudeDate";
                "No FixVersions"; "No Component Chengdu"; "No Labels";
                "No Implementer"].
Proof.
  exists (<["AL-1" := ["No Code"; "No Verification"; "No SubTask";
                       "No DudeDate"; "No FixVersions";
                       "No Component Chengdu"; "No Labels";
                       "No Implementer"]]> ∅), yearly_clock.
  assert (get_project_problem Alpha yearly_clock =
          (Ok (<["AL-1" := ["No Code"; "No Verification"; "No SubTask";
                            "No DudeDate"; "No FixVersions";
                            "No Component Chengdu"; "No Labels";
                            "No Implementer"]]> ∅), yearly_clock))
    as Hrun by reflexivity.
  split; [exact Hrun |].
  apply (get_project_problem_present Alpha yearly_clock yearly_clock
           yearly_clock yearly_clock [clean_story] [] (AL_1 None) ∅ _ _
           eq_refl eq_refl eq_refl); [discriminate | | exact Hrun].
  intros H. by apply elem_of_nil in H.
Defined.

(** The loop adds no key that is not the key of an issue it visits. *)
Lemma project_loop_keys (l : list issue) :
  ∀ (d d' : gmap string (list string)) (w w' : World) (k : string),
    project_loop l d w = (Ok d', w') →
    is_Some (d' !! k) → is_Some (d !! k) ∨ k ∈ key <$> l.
Proof.
  induction l as [|i rest IH]; intros d d' w w' k Hrun Hk.
  - injection Hrun as <- _. by left.
  - rewrite project_loop_cons in Hrun.
    destruct (check_issue i w) as [[u|e] w1]; [| discriminate].
    rewrite fmap_cons, elem_of_cons.
    destruct (IH _ _ _ _ k Hrun Hk) as [H|H]; [| tauto].
    destruct (negb _); [| tauto].
    rewrite lookup_insert in H. case_decide; [subst; tauto | tauto].
Qed.

(** The loop grows the index by one entry per issue at most. *)
Lemma project_loop_size (l : list issue) :
  ∀ (d d' : gmap string (list string)) (w w' : World),
    project_loop l d w = (Ok d', w') →
    (size d' ≤ size d + length l)%nat.
Proof.
  induction l as [|i rest IH]; intros d d' w w' Hrun.
  - injection Hrun as <- _. simpl. lia.
  - rewrite project_loop_cons in Hrun.
    destruct (check_issue i w) as [[u|e] w1]; [| discriminate].
    apply IH in Hrun. simpl length.
    destruct (negb _); [| lia].
    destruct (d !! key i) as [v|] eqn:Hlook.
    + rewrite map_size_insert_Some in Hrun by eauto. lia.
    + rewrite map_size_insert_None in Hrun by done. lia.
Qed.

(** Every key of a returned index is the key of an issue of the
    project, and the index has no more entries than the project has
    issues. *)
Theorem get_project_problem_keys (project : JiraProject) (w w' : World)
    (d : gmap string (list string)) :
  get_project_problem project w = (Ok d, w') →
  (∀ k, is_Some (d !! k) → k ∈ key <$> issues project) ∧
  (size d ≤ length (issues project))%nat.
Proof.
  unfold get_project_problem. intros Hrun. split.
  - intros k Hk.
    destruct (project_loop_keys _ _ _ _ _ k Hrun Hk) as [H|H]; [| exact H].
    rewrite lookup_empty in H. by destruct H.
  - apply project_loop_size in Hrun. by rewrite map_size_empty in Hrun.
Qed.

(** The theorem on the project [Alpha]. *)
Lemma get_project_problem_keys_witness :
  ∃ d w', get_project_problem Alpha yearly_clock = (Ok d, w') ∧
          (size d ≤ length (issues Alpha))%nat.
Proof.
  eexists (<["AL-1" := _]> ∅), yearly_clock.
  assert (get_project_problem Alpha yearly_clock =
          (Ok (<["AL-1" := ["No Code"; "No Verification"; "No SubTask";
                            "No DudeDate"; "No FixVersions";
                            "No Component Chengdu"; "No Labels";
                            "No Implementer"]]> ∅), yearly_clock))
    as Hrun by reflexivity.
  split; [exact Hrun |].
  apply (proj2 (get_project_problem_keys Alpha yearly_clock yearly_clock _
                  Hrun)).
Defined.

Lemma project_loop_reads (l : list issue) :
  ∀ (d d' : gmap string (list string)) (w w' : World),
    project_loop l d w = (Ok d', w') →
    clock w' = clock w ∧
    reads w' = (reads w + length (filter (λ i, reads_clock i = true) l))%nat.
Proof.
  induction l as [|i rest IH]; intros d d' w w' Hrun.
  - injection Hrun as _ <-. simpl. split; [reflexivity | lia].
  - rewrite project_loop_cons in Hrun.
    destruct (check_issue i w) as [[u|e] w1] eqn:Hi; [| discriminate].
    apply check_issue_ok_world in Hi. apply IH in Hrun as [Hc Hr].
    rewrite filter_cons. destruct (reads_clock i); subst w1.
    + rewrite decide_True by done. simpl in *. split; [exact Hc | lia].
    + rewrite decide_False by done. split; [exact Hc | lia].
Qed.

(** A run that returns an index has called [datetime.now()] once for
    every unresolved issue of a checked type that has a due date, and for
    no other issue: each of these issues is judged against a time of its
    own. *)
Theorem get_project_problem_clock_reads (project : JiraProject) (w w' : World)
    (d : gmap string (list string)) :
  get_project_problem project w = (Ok d, w') →
  clock w' = clock w ∧
  reads w' =
    (reads w + length (filter (λ i, reads_clock i = true) (issues project)))%nat.
Proof. apply project_loop_reads. Qed.

(** The theorem on a project of two unresolved issues due on 10 January
    2024 and evaluated a year apart: the clock is read twice, the first
    issue is on time and the second is late. *)
Lemma get_project_problem_clock_reads_witness :
  let open := with_resolutiondate None
                (with_duedate (Some "2024-01-10") clean_story) in
  let p := mk_project "Alpha" "AL" [with_key "AL-5" open; with_key "AL-6" open]
                      "manager" "13800000000" in
  get_project_problem p yearly_clock
    = (Ok (<["AL-6" := ["Delay"]]> ∅), mk_world (clock yearly_clock) 2) ∧
  reads (mk_world (clock yearly_clock) 2) =
    (reads yearly_clock + length (filter (λ i, reads_clock i = true) (issues p)))%nat.
Proof.
  intros open p.
  assert (get_project_problem p yearly_clock
          = (Ok (<["AL-6" := ["Delay"]]> ∅), mk_world (clock yearly_clock) 2))
    as Hrun by reflexivity.
  split; [exact Hrun |].
  apply (proj2 (get_project_problem_clock_reads p yearly_clock _ _ Hrun)).
Defined.

(* ================================================================== *)
(** ** Markers in comments *)

Lemma string_app_nil_l (a : string) : "" ++ a = a.
Proof. reflexivity. Qed.

Lemma string_app_cons (x : ascii) (a b : string) :
  String x a ++ b = String x (a ++ b).
Proof. reflexivity. Qed.

Lemma string_app_assoc (a b c : string) : (a ++ b) ++ c = a ++ (b ++ c).
Proof.
  induction a as [|x a IH]; [reflexivity |].
  by rewrite !string_app_cons, IH.
Qed.

Lemma string_app_empty_r (a : string) : a ++ "" = a.
Proof.
  induction a as [|x a IH]; [reflexivity |]. by rewrite string_app_cons, IH.
Qed.

Lemma lower_app (a b : string) : lower (a ++ b) = lower a ++ lower b.
Proof.
  induction a as [|x a IH]; [reflexivity |].
  rewrite string_app_cons. simpl lower. by rewrite string_app_cons, IH.
Qed.

Lemma contains_unfold (m s : string) :
  contains m s =
  String.prefix m s || match s with
                       | EmptyString => false
                       | String _ r => contains m r
                       end.
Proof. by destruct s. Qed.

Lemma prefix_app_self (m suf : string) : String.prefix m (m ++ suf) = true.
Proof.
  induction m as [|x m IH]; [by destruct suf |].
  rewrite string_app_cons. simpl. by destruct (ascii_dec x x).
Qed.

Lemma prefix_empty (s : string) : String.prefix "" s = true.
Proof. by destruct s. Qed.

(** [needle in hay] holds when [hay] is some text, [needle], some
    text. *)
Lemma contains_intro (m pre suf : string) :
  contains m (pre ++ m ++ suf) = true.
Proof.
  induction pre as [|x pre IH].
  - rewrite string_app_nil_l, contains_unfold. by rewrite prefix_app_self.
  - rewrite string_app_cons, contains_unfold, IH. apply orb_true_r.
Qed.

Lemma prefix_elim (m s : string) :
  String.prefix m s = true → ∃ suf, s = m ++ suf.
Proof.
  revert s. induction m as [|x m IH]; intros s H.
  - by exists s.
  - destruct s as [|y s]; simpl in H; [discriminate |].
    destruct (ascii_dec x y) as [->|]; [| discriminate].
    destruct (IH s H) as [suf ->]. by exists suf.
Qed.

Lemma contains_elim (m s : string) :
  contains m s = true → ∃ pre suf, s = pre ++ m ++ suf.
Proof.
  induction s as [|y s IH]; rewrite contains_unfold; intros H.
  - rewrite orb_false_r in H. apply prefix_elim in H as [suf Hs].
    by exists "", suf.
  - apply orb_true_iff in H as [H|H].
    + apply prefix_elim in H as [suf Hs]. by exists "", suf.
    + destruct (IH H) as (pre & suf & ->). by exists (String y pre), suf.
Qed.

(** A text without the character [c] is a prefix of [a ++ c ++ b]
    only inside [a]. *)
Lemma prefix_app_sep (c : ascii) (b : string) :
  ∀ m a, has_char c m = false →
         String.prefix m (a ++ String c b) = String.prefix m a.
Proof.
  induction m as [|x m IH]; intros a Hm.
  - by rewrite !prefix_empty.
  - simpl in Hm. apply orb_false_elim in Hm as [Hx Hm].
    destruct a as [|y a].
    + rewrite string_app_nil_l. simpl.
      destruct (ascii_dec x c) as [->|]; [| reflexivity].
      by rewrite Ascii.eqb_refl in Hx.
    + rewrite string_app_cons. simpl.
      destruct (ascii_dec x y); [by apply IH | reflexivity].
Qed.

(** A text without the character [c] occurs in [a ++ c ++ b] exactly
    when it occurs in [a] or in [b]. *)
Lemma contains_app_sep (c : ascii) (m a b : string) :
  has_char c m = false →
  contains m (a ++ String c b) = contains m a || contains m b.
Proof.
  intros Hm. induction a as [|y a IH].
  - rewrite (contains_unfold m ("" ++ String c b)).
    rewrite (prefix_app_sep c b m "" Hm), string_app_nil_l.
    rewrite (contains_unfold m ""). by rewrite orb_false_r.
  - rewrite (contains_unfold m (String y a ++ String c b)).
    rewrite (prefix_app_sep c b m (String y a) Hm), string_app_cons, IH.
    rewrite (contains_unfold m (String y a)). by rewrite orb_assoc.
Qed.

Lemma fold_left_comment (l : list string) (acc : string) :
  fold_left (fun comment body => comment ++ (body ++ newline)) l acc =
  acc ++ fold_left (fun comment body => comment ++ (body ++ newline)) l "".
Proof.
  revert acc. induction l as [|b l IH]; intros acc; simpl.
  - by rewrite string_app_empty_r.
  - rewrite string_app_nil_l.
    rewrite (IH (acc ++ (b ++ newline))), (IH (b ++ newline)).
    apply string_app_assoc.
Qed.

(** A marker without line break, and not empty, is in the text the
    checks scan exactly when one comment contains it, letter case
    ignored. *)
Lemma contains_comment_text (m : string) (i : issue) :
  has_char (ascii_of_nat 10) m = false → m ≠ "" →
  contains m (comment_text i) = mentions m i.
Proof.
  intros Hm Hne. unfold comment_text, mentions.
  induction (comments i) as [|b l IH]; simpl.
  - destruct m; [done | reflexivity].
  - rewrite string_app_nil_l, fold_left_comment, lower_app, lower_app.
    change (lower newline) with (String (ascii_of_nat 10) "").
    rewrite string_app_assoc, string_app_cons, string_app_nil_l.
    rewrite (contains_app_sep _ m _ _ Hm). by rewrite IH.
Qed.




(** For a bug and every list returned: [No Analyse] is in the list
    exactly when no comment contains [[analyse]], and [No Solution]
    exactly when no comment contains [[solution]], letter case ignored. *)
Theorem bug_marker_codes_iff (i : issue) (w : World) (l : list string) :
  str_in (issuetype_name i) bug_names = true →
  fst (check_issue i w) = Ok l →
  ("No Analyse" ∈ l ↔ mentions "[analyse]" i = false) ∧
  ("No Solution" ∈ l ↔ mentions "[solution]" i = false).
Proof.
  intros Hn Hl.
  assert (str_in (issuetype_name i) story_names = false) as Hns.
  { pose proof (proj1 (str_in_elem_of _ _) Hn) as Hin.
    unfold bug_names in Hin. rewrite !elem_of_cons, elem_of_nil in Hin.
    destruct Hin as [->|[->|[]]]; reflexivity. }
  assert (issuetype_name i ∈ typed_names) as Ht.
  { pose proof (proj1 (str_in_elem_of _ _) Hn) as Hin.
    unfold bug_names in Hin. unfold typed_names.
    rewrite !elem_of_cons, elem_of_nil in Hin. rewrite !elem_of_cons.
    destruct Hin as [->|[->|[]]]; tauto. }
  destruct (check_issue_list i w l Ht Hl) as (dd & sec & _ & -> & Hdd).
  rewrite !type_code_elem_of;
    [| rewrite !elem_of_cons; tauto | exact Hdd
     | rewrite !elem_of_cons; tauto | exact Hdd].
  unfold type_codes. rewrite Hns, Hn.
  pose proof (story_point_check_sublist i) as Hsp.
  unfold bug_codes. cbv zeta. rewrite !elem_of_app, !elem_of_opt_code.
  rewrite <- (contains_comment_text "[analyse]" i),
    <- (contains_comment_text "[solution]" i)
    by (reflexivity || discriminate).
  split; split.
  - intros [[H _]|[[_ H]|[[_ H]|[[_ H]|H]]]]; try discriminate H;
      [by apply negb_true_iff |].
    apply (elem_of_sublist _ _ _ H) in Hsp. not_listed Hsp.
  - intros H. left. split; [by apply negb_true_iff | reflexivity].
  - intros [[_ H]|[[H _]|[[_ H]|[[_ H]|H]]]]; try discriminate H;
      [by apply negb_true_iff |].
    apply (elem_of_sublist _ _ _ H) in Hsp. not_listed Hsp.
  - intros H. right. left. split; [by apply negb_true_iff | reflexivity].
Qed.

(** The theorem on a bug whose comments carry every marker but
    [[solution]]. *)
Lemma bug_marker_codes_iff_witness :
  let i := with_type "缺陷" (with_comments
             ["[Analyse] root cause"; "[commitlink] [version] [steps] [result]"]
             clean_story) in
  fst (check_issue i yearly_clock) = Ok ["No Solution"] ∧
  ("No Solution" ∈ ["No Solution"] ↔ mentions "[solution]" i = false).
Proof.
  intros i. split; [reflexivity |].
  apply (proj2 (bug_marker_codes_iff i yearly_clock ["No Solution"]
                  eq_refl eq_refl)).
Defined.

(* ================================================================== *)
(** ** The index in iteration order *)

Lemma odict_set_keys (k : string) (v : list string)
    (d : list (string * list string)) :
  (odict_set k v d).*1 = if decide (k ∈ d.*1) then d.*1 else (d.*1 ++ [k])%list.
Proof.
  induction d as [|[k' v'] r IH].
  - destruct (decide (k ∈ ([] : list (string * list string)).*1)) as [Hin|Hin];
      [by apply elem_of_nil in Hin | reflexivity].
  - cbn [odict_set].
    destruct (decide (k ∈ ((k', v') :: r).*1)) as [Hin'|Hin'];
      rewrite fmap_cons in Hin'; cbn [fst] in Hin';
      destruct (String.eqb k' k) eqn:Hk.
    + reflexivity.
    + apply String.eqb_neq in Hk. rewrite !fmap_cons, IH. cbn [fst].
      apply elem_of_cons in Hin' as [->|Hin']; [done |].
      by rewrite decide_True.
    + apply String.eqb_eq in Hk as ->.
      exfalso. apply Hin', list_elem_of_here.
    + rewrite !fmap_cons, IH. cbn [fst].
      rewrite decide_False; [reflexivity |].
      intros H. by apply Hin', list_elem_of_further.
Qed.

Lemma odict_set_to_map (k : string) (v : list string)
    (d : list (string * list string)) :
  (list_to_map (odict_set k v d) : gmap string (list string))
  = <[k := v]> (list_to_map d).
Proof.
  induction d as [|[k' v'] r IH]; simpl; [reflexivity |].
  destruct (String.eqb k' k) eqn:Hk.
  - apply String.eqb_eq in Hk as ->. simpl. by rewrite insert_insert_eq.
  - apply String.eqb_neq in Hk. simpl. rewrite IH.
    by apply insert_insert_ne.
Qed.

Lemma odict_set_NoDup (k : string) (v : list string)
    (d : list (string * list string)) :
  NoDup d.*1 → NoDup (odict_set k v d).*1.
Proof.
  intros Hd. rewrite odict_set_keys.
  destruct (decide (k ∈ d.*1)) as [Hin|Hin]; [exact Hd |].
  apply NoDup_app. split; [exact Hd |]. split; [| apply NoDup_singleton].
  intros x Hx ->%list_elem_of_singleton. by apply Hin.
Qed.

Lemma project_loop_items_cons (i : issue) (rest : list issue)
    (d : list (string * list string)) (w : World) :
  project_loop_items (i :: rest) d w =
  match check_issue i w with
  | (Ok u, w1) =>
      project_loop_items rest
        (if negb (length u =? 0)%nat then odict_set (key i) u d else d) w1
  | (Raise e, w1) => (Raise e, w1)
  end.
Proof. reflexivity. Qed.

(** The loop on the items computes the loop on the mapping. *)
Lemma project_loop_items_to_map (l : list issue) :
  ∀ (d : list (string * list string)) (w : World),
    project_loop l (list_to_map d) w =
    match project_loop_items l d w with
    | (Ok d', w') => (Ok (list_to_map d'), w')
    | (Raise e, w') => (Raise e, w')
    end.
Proof.
  induction l as [|i rest IH]; intros d w; [reflexivity |].
  rewrite project_loop_cons, project_loop_items_cons.
  destruct (check_issue i w) as [[u|e] w1]; [| reflexivity].
  destruct (negb _); [| apply IH].
  rewrite <- odict_set_to_map. apply IH.
Qed.

Lemma project_loop_items_keys (l : list issue) :
  ∀ (d d' : list (string * list string)) (w w' : World),
    project_loop_items l d w = (Ok d', w') →
    d'.*1 `sublist_of` (d.*1 ++ (key <$> l))%list ∧
    (NoDup d.*1 → NoDup d'.*1).
Proof.
  induction l as [|i rest IH]; intros d d' w w' Hrun.
  - injection Hrun as <- _. by rewrite app_nil_r.
  - rewrite project_loop_items_cons in Hrun.
    destruct (check_issue i w) as [[u|e] w1]; [| discriminate].
    apply IH in Hrun as [Hsub Hnd]. rewrite fmap_cons.
    destruct (negb _).
    + split; [| intros Hd; by apply Hnd, odict_set_NoDup].
      rewrite odict_set_keys in Hsub.
      destruct (decide (key i ∈ d.*1)).
      * etrans; [exact Hsub |]. apply sublist_app; [done |].
        by apply sublist_cons.
      * by rewrite <- app_assoc in Hsub.
    + split; [| exact Hnd].
      etrans; [exact Hsub |]. apply sublist_app; [done |].
      by apply sublist_cons.
Qed.

(** The items of a returned index come in the order of the issues of
    the project (each key at the first issue that put it in), no key comes
    twice, and read as a mapping they are the index of
    [get_project_problem]. *)
Theorem index_items_order (project : JiraProject) (w w' : World)
    (d : list (string * list string)) :
  get_project_problem_items project w = (Ok d, w') →
  d.*1 `sublist_of` (key <$> issues project) ∧
  NoDup d.*1 ∧
  get_project_problem project w = (Ok (list_to_map d), w').
Proof.
  unfold get_project_problem_items, get_project_problem. intros Hrun.
  destruct (project_loop_items_keys _ _ _ _ _ Hrun) as [Hsub Hnd].
  split; [exact Hsub |]. split; [apply Hnd, NoDup_nil_2 |].
  change (∅ : gmap string (list string))
    with (list_to_map (@nil (string * list string)) : gmap string (list string)).
  by rewrite project_loop_items_to_map, Hrun.
Qed.

(** The theorem on the project [Alpha]. *)
Lemma index_items_order_witness :
  let d := [("AL-1", ["No Code"; "No Verification"; "No SubTask";
                      "No DudeDate"; "No FixVersions";
                      "No Component Chengdu"; "No Labels";
                      "No Implementer"])] in
  get_project_problem_items Alpha yearly_clock = (Ok d, yearly_clock) ∧
  d.*1 `sublist_of` (key <$> issues Alpha).
Proof.
  intros d. split; [reflexivity |].
  apply (index_items_order Alpha yearly_clock yearly_clock d). reflexivity.
Defined.

(* ================================================================== *)
(** ** The report *)

Lemma contains_app_l (m a s : string) :
  contains m s = true → contains m (a ++ s) = true.
Proof.
  intros (pre & suf & ->)%contains_elim.
  rewrite <- string_app_assoc. apply contains_intro.
Qed.

Lemma contains_app_r (m s b : string) :
  contains m s = true → contains m (s ++ b) = true.
Proof.
  intros (pre & suf & ->)%contains_elim.
  rewrite !string_app_assoc. apply contains_intro.
Qed.

Lemma contains_refl (m : string) : contains m m = true.
Proof.
  rewrite <- (string_app_empty_r m) at 2.
  apply (contains_intro m "" "").
Qed.

Lemma fold_left_report (l : list (string * list string)) (acc : string) :
  fold_left (fun project_report item => project_report ++ report_line item)
            l acc =
  acc ++ fold_left (fun project_report item => project_report ++ report_line item)
                   l "".
Proof.
  revert acc. induction l as [|x l IH]; intros acc; simpl.
  - by rewrite string_app_empty_r.
  - rewrite string_app_nil_l.
    rewrite (IH (acc ++ report_line x)), (IH (report_line x)).
    apply string_app_assoc.
Qed.

Lemma report_lines_contains (l : list (string * list string))
    (item : string * list string) :
  item ∈ l →
  contains (report_line item)
    (fold_left (fun project_report x => project_report ++ report_line x) l "")
  = true.
Proof.
  induction l as [|x l IH]; intros Hin; [by apply elem_of_nil in Hin |].
  simpl. rewrite string_app_nil_l, fold_left_report.
  apply elem_of_cons in Hin as [->|Hin].
  - apply contains_app_r, contains_refl.
  - by apply contains_app_l, IH.
Qed.

(** Whatever the tag, the name and the index: the report contains the
    tag (without it the robot refuses the message), the name of the
    project, and for every item of the index the line with its key and its
    list of codes. *)
Theorem report_mentions (project_name tag : string)
    (issue_dict : list (string * list string)) :
  let report := generate_project_dingding_report_by_issue_dict
                  project_name issue_dict tag in
  contains tag report = true ∧
  contains project_name report = true ∧
  ∀ item, item ∈ issue_dict → contains (report_line item) report = true.
Proof.
  unfold generate_project_dingding_report_by_issue_dict. cbv zeta.
  rewrite fold_left_report. split; [| split].
  - apply contains_app_r.
    apply (contains_intro tag "---------- ").
  - apply contains_app_r. do 4 apply contains_app_l.
    apply contains_app_r, contains_refl.
  - intros item Hin. by apply contains_app_l, report_lines_contains.
Qed.

Lemma count_char_app (c : ascii) (a b : string) :
  count_char c (a ++ b) = (count_char c a + count_char c b)%nat.
Proof.
  induction a as [|x a IH]; [reflexivity |].
  rewrite string_app_cons. simpl. rewrite IH. lia.
Qed.

Lemma repr_char_no_newline (quote c : ascii) :
  quote = chr 39 ∨ quote = chr 34 →
  count_char (chr 10) (repr_char quote c) = 0%nat.
Proof.
  intros [-> | ->];
    destruct c as [[] [] [] [] [] [] [] []]; reflexivity.
Qed.

Lemma repr_chars_no_newline (quote : ascii) (s : string) :
  quote = chr 39 ∨ quote = chr 34 →
  count_char (chr 10) (repr_chars quote s) = 0%nat.
Proof.
  intros Hq. induction s as [|c s IH]; [reflexivity |].
  simpl. by rewrite count_char_app, repr_char_no_newline, IH.
Qed.

Lemma repr_str_no_newline (s : string) :
  count_char (chr 10) (repr_str s) = 0%nat.
Proof.
  unfold repr_str. cbv zeta.
  destruct (has_char (chr 39) s && negb (has_char (chr 34) s)).
  - simpl. rewrite count_char_app, repr_chars_no_newline by (right; reflexivity).
    reflexivity.
  - simpl. rewrite count_char_app, repr_chars_no_newline by (left; reflexivity).
    reflexivity.
Qed.

Lemma join_comma_no_newline (l : list string) :
  (∀ x, x ∈ l → count_char (chr 10) x = 0%nat) →
  count_char (chr 10) (join_comma l) = 0%nat.
Proof.
  induction l as [|x l IH]; intros H; [reflexivity |].
  destruct l as [|y l]; simpl.
  - apply H, list_elem_of_here.
  - rewrite !count_char_app, (H x) by apply list_elem_of_here.
    simpl. apply IH. intros z Hz. by apply H, list_elem_of_further.
Qed.

Lemma str_of_list_no_newline (l : list string) :
  count_char (chr 10) (str_of_list l) = 0%nat.
Proof.
  unfold str_of_list. rewrite !count_char_app, join_comma_no_newline.
  - reflexivity.
  - intros x (s & -> & _)%list_elem_of_fmap. apply repr_str_no_newline.
Qed.

Lemma report_lines_count (l : list (string * list string)) :
  count_char (chr 10)
    (fold_left (fun project_report x => project_report ++ report_line x) l "")
  = (length l + sum_list ((λ item, count_char (chr 10) item.1) <$> l))%nat.
Proof.
  induction l as [|x l IH]; [reflexivity |].
  simpl. rewrite string_app_nil_l, fold_left_report, count_char_app, IH.
  unfold report_line. rewrite !count_char_app, str_of_list_no_newline.
  simpl. unfold fmap in *. lia.
Qed.

(** The report has one line for the tag, one for the name of the
    project and one per item of the index, when the tag, the name and the
    keys have no line break of their own: the list of codes of an item
    never breaks a line, whatever its texts. *)
Theorem report_line_count (project_name tag : string)
    (issue_dict : list (string * list string)) :
  count_char (chr 10)
    (generate_project_dingding_report_by_issue_dict project_name issue_dict tag)
  = (2 + length issue_dict
     + count_char (chr 10) tag + count_char (chr 10) project_name
     + sum_list ((λ item, count_char (chr 10) item.1) <$> issue_dict))%nat.
Proof.
  unfold generate_project_dingding_report_by_issue_dict.
  rewrite fold_left_report, count_char_app, report_lines_count.
  rewrite !count_char_app. simpl. unfold fmap in *. lia.
Qed.

(** Every code of a returned list is one of the thirteen. *)
Lemma check_issue_codes (i : issue) (w : World) (l : list string) :
  fst (check_issue i w) = Ok l → ∀ c, c ∈ l → c ∈ all_codes.
Proof.
  intros Hl c Hc.
  destruct (decide (issuetype_name i ∈ typed_names)) as [Ht|Ht].
  - destruct (check_issue_list i w l Ht Hl) as (dd & sec & _ & -> & Hdd).
    unfold all_codes. rewrite !elem_of_app in Hc.
    destruct Hc as [H|[H|H]].
    + apply elem_of_type_codes in H. revert H.
      rewrite !elem_of_cons. tauto.
    + destruct Hdd as [[_ ->]|[_ [b ->]]].
      * apply list_elem_of_singleton in H as ->. rewrite !elem_of_cons. tauto.
      * apply elem_of_opt_code in H as [_ ->]. rewrite !elem_of_cons. tauto.
    + apply elem_of_static_codes in H. revert H.
      rewrite !elem_of_cons. tauto.
  - rewrite (check_issue_untyped i Ht) in Hl. injection Hl as <-.
    by apply elem_of_nil in Hc.
Qed.

Lemma repr_str_code (c : string) :
  c ∈ all_codes → repr_str c = "'" ++ c ++ "'".
Proof.
  unfold all_codes. rewrite !elem_of_cons, elem_of_nil.
  intros H. repeat (destruct H as [->|H]; [reflexivity |]). destruct H.
Qed.

(** The report writes a list returned by [check_issue] as its codes in
    single quotes, separated by a comma and a space, between square
    brackets: no code needs an escape. *)
Theorem str_of_list_codes (i : issue) (w : World) (l : list string) :
  fst (check_issue i w) = Ok l →
  str_of_list l = "[" ++ join_comma (map (λ c, "'" ++ c ++ "'") l) ++ "]".
Proof.
  intros Hl. unfold str_of_list. do 3 f_equal.
  apply map_ext_in. intros c Hc%list_elem_of_In.
  apply repr_str_code. by apply (check_issue_codes i w l Hl).
Qed.

(** The theorem on an issue reported for its security level only. *)
Lemma str_of_list_codes_witness :
  str_of_list ["No Askey-Secure"] = "['No Askey-Secure']".
Proof.
  apply (str_of_list_codes (with_security (Some "Public") clean_story)
           yearly_clock ["No Askey-Secure"]).
  reflexivity.
Defined.

(* ================================================================== *)
(** ** The loop of [main] *)

Lemma main_loop_cons (robot_url robot_tag : string) (project : JiraProject)
    (rest : list JiraProject) (posted : list message) (w : World) :
  main_loop robot_url robot_tag (project :: rest) posted w =
  match get_project_problem_items project w with
  | (Raise e, w') => (Raise e, posted, w')
  | (Ok project_issue_dict, w') =>
      main_loop robot_url robot_tag rest
        (if negb (length project_issue_dict =? 0)%nat
         then send_message robot_url
                (generate_project_dingding_report_by_issue_dict
                   (name project) project_issue_dict robot_tag)
                (project_manager project) (manager_phone project) posted
         else posted) w'
  end.
Proof. reflexivity. Qed.

(** Every message [main] posts goes to the address of the
    configuration, mentions nobody but the manager of one project of the
    list, and carries the report of that project for an index that is not
    empty; the messages posted before are kept, and there is at most one
    new message per project.  This holds whether the loop ends or an
    exception stops it. *)
Theorem main_loop_messages (robot_url robot_tag : string)
    (list_project : list JiraProject) (posted posted' : list message)
    (w w' : World) (r : result unit) :
  main_loop robot_url robot_tag list_project posted w = (r, posted', w') →
  ∃ new,
    posted' = (posted ++ new)%list ∧
    (length new ≤ length list_project)%nat ∧
    ∀ m, m ∈ new →
      msg_url m = robot_url ∧ msg_isAtAll m = false ∧
      ∃ project d w0 w1,
        project ∈ list_project ∧
        get_project_problem_items project w0 = (Ok d, w1) ∧ d ≠ [] ∧
        msg_content m =
          generate_project_dingding_report_by_issue_dict
            (name project) d robot_tag ∧
        msg_atMobiles m = [manager_phone project].
Proof.
  revert posted w. induction list_project as [|p rest IH]; intros posted w Hrun.
  - injection Hrun as _ <- _. exists []. rewrite app_nil_r.
    split; [reflexivity |]. split; [reflexivity |].
    intros m Hm. by apply elem_of_nil in Hm.
  - rewrite main_loop_cons in Hrun.
    destruct (get_project_problem_items p w) as [[d|e] w1] eqn:Hp.
    + apply IH in Hrun as (new & -> & Hlen & Hnew).
      assert (∀ m, m ∈ new →
                msg_url m = robot_url ∧ msg_isAtAll m = false ∧
                ∃ project d w0 w1,
                  project ∈ p :: rest ∧
                  get_project_problem_items project w0 = (Ok d, w1) ∧ d ≠ [] ∧
                  msg_content m =
                    generate_project_dingding_report_by_issue_dict
                      (name project) d robot_tag ∧
                  msg_atMobiles m = [manager_phone project]) as Hnew'.
      { intros m Hm.
        destruct (Hnew m Hm) as (Hu & Ha & q & dq & w0 & w1' & Hq & Hrest).
        split; [exact Hu |]. split; [exact Ha |].
        exists q, dq, w0, w1'. split; [by apply list_elem_of_further | exact Hrest]. }
      destruct d as [|item d]; simpl negb; cbv iota.
      * exists new. split; [reflexivity |]. split; [simpl; lia | exact Hnew'].
      * unfold send_message. rewrite <- app_assoc.
        eexists (_ :: new). split; [reflexivity |].
        split; [simpl; lia |].
        intros m [->|Hm]%elem_of_cons; [| by apply Hnew'].
        split; [reflexivity |]. split; [reflexivity |].
        exists p, (item :: d), w, w1.
        split; [apply list_elem_of_here |]. by repeat split.
    + injection Hrun as _ <- _. exists []. rewrite app_nil_r.
      split; [reflexivity |]. split; [simpl; lia |].
      intros m Hm. by apply elem_of_nil in Hm.
Qed.

(** The theorem on the project [Alpha] alone. *)
Lemma main_loop_messages_witness :
  main_loop "https://robot" "jira" [Alpha] [] yearly_clock
    = (Ok tt, [Alpha_message "https://robot" "jira"], yearly_clock) ∧
  ∃ new, [Alpha_message "https://robot" "jira"] = ([] ++ new)%list ∧
         (length new ≤ 1)%nat.
Proof.
  assert (main_loop "https://robot" "jira" [Alpha] [] yearly_clock
          = (Ok tt, [Alpha_message "https://robot" "jira"], yearly_clock))
    as Hrun by (vm_compute; reflexivity).
  split; [exact Hrun |].
  destruct (main_loop_messages _ _ _ _ _ _ _ _ Hrun) as (new & Hnew & Hlen & _).
  exists new. split; [exact Hnew | exact Hlen].
Defined.

(** An exception in one project ends the run: when the projects before
    [project] are done and its index raises, [main] stops with the same
    exception; what was posted for the earlier projects stays posted, and
    nothing is posted for [project] or for any project after it. *)
Theorem main_loop_raises (robot_url robot_tag : string)
    (pre post : list JiraProject) (project : JiraProject)
    (posted posted1 : list message) (w w1 w2 : World) (e : exn) :
  main_loop robot_url robot_tag pre posted w = (Ok tt, posted1, w1) →
  get_project_problem_items project w1 = (Raise e, w2) →
  main_loop robot_url robot_tag (pre ++ project :: post)%list posted w
  = (Raise e, posted1, w2).
Proof.
  revert posted w. induction pre as [|p rest IH]; intros posted w Hpre Hp.
  - injection Hpre as <- <-. simpl app. by rewrite main_loop_cons, Hp.
  - rewrite <- app_comm_cons, main_loop_cons.
    rewrite main_loop_cons in Hpre.
    destruct (get_project_problem_items p w) as [[d|e'] w']; [| discriminate].
    by apply IH.
Qed.

(** The theorem on [Alpha] followed by [Beta] and by [Alpha] again: one
    message, then the exception. *)
Lemma main_loop_raises_witness :
  main_loop "https://robot" "jira" [Alpha; Beta; Alpha] [] yearly_clock
  = (Raise AttributeError, [Alpha_message "https://robot" "jira"],
     yearly_clock).
Proof.
  apply (main_loop_raises "https://robot" "jira" [Alpha] [Alpha] Beta
           [] [Alpha_message "https://robot" "jira"]
           yearly_clock yearly_clock yearly_clock AttributeError);
    vm_compute; reflexivity.
Defined.

(* ================================================================== *)
(** ** Dates as the tracker writes them *)

Lemma p_digit_digit_char (n : Z) (r : list ascii) :
  0 <= n <= 9 → p_digit (digit_char n :: r) = [(n, r)].
Proof.
  intros Hn.
  assert (n = 0 ∨ n = 1 ∨ n = 2 ∨ n = 3 ∨ n = 4 ∨ n = 5 ∨ n = 6 ∨ n = 7 ∨
          n = 8 ∨ n = 9) as H by lia.
  repeat (destruct H as [->|H]; [reflexivity |]). by subst.
Qed.

Lemma year_digits (y : Z) :
  0 <= y <= 9999 →
  0 <= y / 1000 <= 9 ∧ 0 <= y / 100 mod 10 <= 9 ∧
  0 <= y / 10 mod 10 <= 9 ∧ 0 <= y mod 10 <= 9 ∧
  1000 * (y / 1000) + 100 * (y / 100 mod 10) + 10 * (y / 10 mod 10)
  + y mod 10 = y.
Proof.
  intros Hy.
  pose proof (Z.mod_pos_bound (y / 100) 10 ltac:(lia)) as B1.
  pose proof (Z.mod_pos_bound (y / 10) 10 ltac:(lia)) as B2.
  pose proof (Z.mod_pos_bound y 10 ltac:(lia)) as B3.
  pose proof (Z.div_mod y 10 ltac:(lia)) as H1.
  pose proof (Z.div_mod (y / 10) 10 ltac:(lia)) as H2.
  pose proof (Z.div_mod (y / 100) 10 ltac:(lia)) as H3.
  replace (y / 10 / 10) with (y / 100) in H2
    by (rewrite Z.div_div by lia; reflexivity).
  replace (y / 100 / 10) with (y / 1000) in H3
    by (rewrite Z.div_div by lia; reflexivity).
  assert (0 <= y / 1000 < 10) as B4
    by (split; [apply Z.div_pos; lia | apply Z.div_lt_upper_bound; lia]).
  lia.
Qed.

Lemma re_Y_digits (a b c e : Z) (r : list ascii) :
  0 <= a <= 9 → 0 <= b <= 9 → 0 <= c <= 9 → 0 <= e <= 9 →
  re_Y (digit_char a :: digit_char b :: digit_char c :: digit_char e :: r)
  = [(1000 * a + 100 * b + 10 * c + e, r)].
Proof.
  intros Ha Hb Hc He. unfold re_Y, p_bind, p_ret.
  rewrite (p_digit_digit_char a) by done. cbn [flat_map fst snd app].
  rewrite (p_digit_digit_char b) by done. cbn [flat_map fst snd app].
  rewrite (p_digit_digit_char c) by done. cbn [flat_map fst snd app].
  rewrite (p_digit_digit_char e) by done. reflexivity.
Qed.

Lemma re_md_after_format (y m d : Z) :
  1 <= m <= 12 → 1 <= d <= 31 →
  ∃ others, re_md_after y (format_md m d) = ((y, m, d), []) :: others.
Proof.
  intros Hm Hd.
  assert (m = 1 ∨ m = 2 ∨ m = 3 ∨ m = 4 ∨ m = 5 ∨ m = 6 ∨ m = 7 ∨ m = 8 ∨
          m = 9 ∨ m = 10 ∨ m = 11 ∨ m = 12) as Hm' by lia.
  assert (d = 1 ∨ d = 2 ∨ d = 3 ∨ d = 4 ∨ d = 5 ∨ d = 6 ∨ d = 7 ∨ d = 8 ∨
          d = 9 ∨ d = 10 ∨ d = 11 ∨ d = 12 ∨ d = 13 ∨ d = 14 ∨ d = 15 ∨
          d = 16 ∨ d = 17 ∨ d = 18 ∨ d = 19 ∨ d = 20 ∨ d = 21 ∨ d = 22 ∨
          d = 23 ∨ d = 24 ∨ d = 25 ∨ d = 26 ∨ d = 27 ∨ d = 28 ∨ d = 29 ∨
          d = 30 ∨ d = 31) as Hd' by lia.
  clear Hm Hd.
  repeat (destruct Hm' as [->|Hm']; [| try subst m]);
    repeat (destruct Hd' as [->|Hd']; [| try subst d]);
    eexists; vm_compute; reflexivity.
Qed.

Lemma re_Ymd_format (y m d : Z) :
  0 <= y <= 9999 → 1 <= m <= 12 → 1 <= d <= 31 →
  ∃ others,
    re_Ymd (list_ascii_of_string (format_Ymd y m d))
    = ((y, m, d), []) :: others.
Proof.
  intros Hy Hm Hd.
  destruct (year_digits y Hy) as (Ha & Hb & Hc & He & Hsum).
  destruct (re_md_after_format y m d Hm Hd) as [others Ho].
  exists others.
  change (re_Ymd (list_ascii_of_string (format_Ymd y m d)))
    with (flat_map (fun ar => re_md_after (fst ar) (snd ar))
            (re_Y (digit_char (y / 1000) :: digit_char (y / 100 mod 10) ::
                   digit_char (y / 10 mod 10) :: digit_char (y mod 10) ::
                   format_md m d))).
  rewrite (re_Y_digits _ _ _ _ _ Ha Hb Hc He), Hsum.
  cbn [flat_map fst snd]. by rewrite Ho, app_nil_r.
Qed.

(** The text [YYYY-MM-DD] of a date of the calendar parses to that
    date. *)
Lemma strptime_Ymd_format (y m d : Z) :
  check_date_fields y m d = true →
  strptime_Ymd (format_Ymd y m d) = Ok (midnight y m d).
Proof.
  intros Hc. pose proof Hc as Hc'. unfold check_date_fields in Hc'.
  rewrite !andb_true_iff, !Z.leb_le in Hc'.
  destruct Hc' as [[[[[Hy1 Hy2] Hm1] Hm2] Hd1] Hd2].
  assert (d <= 31) as Hd3.
  { unfold days_in_month in Hd2.
    destruct (m =? 2); [destruct (is_leap y); lia |].
    destruct (_ || _); lia. }
  unfold strptime_Ymd, full_match.
  destruct (re_Ymd_format y m d) as [others ->]; [lia | lia | lia |].
  cbn [result_bind]. by rewrite Hc.
Qed.

(** An unresolved issue of a checked type that has a security level and
    whose due date is a date of the calendar, written [YYYY-MM-DD] with
    leading zeros as the tracker writes it, never raises: the evaluation
    returns a list. *)
Theorem tracker_duedate_never_raises (i : issue) (w : World) (y m d : Z)
    (sec : string) :
  is_typed i = true →
  check_date_fields y m d = true →
  duedate i = Some (format_Ymd y m d) →
  resolutiondate i = None →
  security i = Some sec →
  ∃ l, fst (check_issue i w) = Ok l.
Proof.
  intros Ht%is_typed_elem_of Hc Hd Hr Hs.
  rewrite (check_issue_open i w _ _ Ht Hd (strptime_Ymd_format y m d Hc) Hr), Hs.
  by eexists.
Qed.

(** The theorem on a story due on 29 February 2024. *)
Lemma tracker_duedate_never_raises_witness :
  let i := with_resolutiondate None
             (with_duedate (Some "2024-02-29") clean_story) in
  ∃ l, fst (check_issue i yearly_clock) = Ok l.
Proof.
  intros i.
  apply (tracker_duedate_never_raises i yearly_clock 2024 2 29 "Askey-Secure");
    reflexivity.
Defined.
